(** * Session and access-control core of the developer portal

    A shallow embedding of the session store, the role manager, the
    session-security check, the session middleware, the role guard, the
    session monitor and the cleanup job of "Authentication & Security"
    (Session Management, sections 1-6), and the properties stated about
    them.

    Conventions.
    - A [Date] is its number of milliseconds since the epoch, a [Z].
    - A JS [Map<string, V>] is a [gmap string V]; a database collection is the
      list of its documents, in insertion order.
    - An [async] function is a computation in the monad [M]: it threads the
      process state [World] and either returns or throws.  Every awaited call
      to the database or to the audit logger is one I/O operation; whether it
      is rejected is read off the [faults] script of the world, and it is
      recorded in [ioTrace]. *)

From stdpp Require Import gmap strings list.

Local Open Scope Z_scope.

(** ** Data model *)

Module Metadata.
Record t := mk {
  ip : string;
  userAgent : string;
  lastActive : Z;
  (* read by validateSession; absent from the object literal of create *)
  deviceId : option string
}.
End Metadata.

Module UserSession.
Record t := mk {
  id : string;
  userId : string;
  token : string;
  role : string;
  permissions : list string;
  createdAt : Z;
  expiresAt : Z;
  metadata : Metadata.t
}.
End UserSession.

Module Role.
Record t := mk {
  id : string;
  name : string;
  permissions : list string
}.
End Role.

(** interface RoleCache *)
Record RoleCache := mkRoleCache {
  roles : gmap string Role.t;
  lastUpdated : Z
}.

(** The entries handed to [auditLogger.log]. *)
Inductive AuditEntry :=
| AccessEntry (userId role resource : string) (allowed : bool)
| SessionExpiredEntry (userId sessionId : string).

(** The request as the code reads it. *)
Record Request := mkRequest {
  req_ip : string;
  req_userAgent : string;          (* request.headers['user-agent'] *)
  req_url : string;
  req_session : option UserSession.t  (* request.session, set by sessionMiddleware *)
}.

Inductive Error := RepositoryError | AuditError.

Inductive IoEvent :=
| EvInsertOne (sessionId : string)
| EvFindOne (sessionId : string)
| EvDelete (sessionId : string)
| EvFindExpired
| EvFindRoles
| EvAuditLog.

(** ** Process state *)

Record World := mkWorld {
  cache : gmap string UserSession.t;     (* sessionStore.cache *)
  collection : list UserSession.t;       (* db.collection('sessions') *)
  roleCache : RoleCache;                 (* RoleManager.cache *)
  rolesCollection : list Role.t;         (* db.collection('roles') *)
  auditLog : list AuditEntry;            (* what auditLogger has accepted *)
  faults : list bool;                    (* true: the next awaited I/O is rejected *)
  ioTrace : list IoEvent                 (* I/O issued so far, latest first *)
}.

Definition set_cache (f : gmap string UserSession.t → gmap string UserSession.t) (w : World) : World :=
  mkWorld (f (cache w)) (collection w) (roleCache w) (rolesCollection w)
          (auditLog w) (faults w) (ioTrace w).

Definition set_collection (f : list UserSession.t → list UserSession.t) (w : World) : World :=
  mkWorld (cache w) (f (collection w)) (roleCache w) (rolesCollection w)
          (auditLog w) (faults w) (ioTrace w).

Definition set_roleCache (f : RoleCache → RoleCache) (w : World) : World :=
  mkWorld (cache w) (collection w) (f (roleCache w)) (rolesCollection w)
          (auditLog w) (faults w) (ioTrace w).

Definition set_auditLog (f : list AuditEntry → list AuditEntry) (w : World) : World :=
  mkWorld (cache w) (collection w) (roleCache w) (rolesCollection w)
          (f (auditLog w)) (faults w) (ioTrace w).

Definition set_faults (fs : list bool) (w : World) : World :=
  mkWorld (cache w) (collection w) (roleCache w) (rolesCollection w)
          (auditLog w) fs (ioTrace w).

Definition trace (ev : IoEvent) (w : World) : World :=
  mkWorld (cache w) (collection w) (roleCache w) (rolesCollection w)
          (auditLog w) (faults w) (ev :: ioTrace w).

(** ** The monad of async functions *)

Inductive Outcome (A : Type) :=
| Ok (a : A)
| Throw (e : Error).
Arguments Ok {A} a.
Arguments Throw {A} e.

Definition M (A : Type) : Type := World → Outcome A * World.

Definition ret {A} (a : A) : M A := λ w, (Ok a, w).

Definition bind {A B} (m : M A) (k : A → M B) : M B :=
  λ w, match m w with
       | (Ok a, w') => k a w'
       | (Throw e, w') => (Throw e, w')
       end.

Notation "'let*' x ':=' m 'in' k" := (bind m (λ x, k))
  (at level 10, x name, m at level 100, k at level 200).
Notation "m '>>' k" := (bind m (λ _, k))
  (at level 63, right associativity).

Definition modify (f : World → World) : M unit := λ w, (Ok tt, f w).
Definition gets {A} (f : World → A) : M A := λ w, (Ok (f w), w).

(** An I/O operation is issued when the call is made ... *)
Definition issue (ev : IoEvent) : M unit := modify (trace ev).

(** ... and its promise settles when the caller resumes after [await]: it is
    rejected with [err] when the script says so, and fulfilled otherwise
    (also when the script is over). *)
Definition settle (err : Error) : M unit :=
  λ w, match faults w with
       | true :: fs => (Throw err, set_faults fs w)
       | false :: fs => (Ok tt, set_faults fs w)
       | [] => (Ok tt, w)
       end.

(** [await op(...)] with nothing else running in between. *)
Definition await_io (ev : IoEvent) (err : Error) : M unit :=
  issue ev >> settle err.

(** No awaited operation is going to be rejected. *)
Definition io_ok (w : World) : Prop := Forall (λ b, b = false) (faults w).

(** ** The sessions collection *)

Definition has_id (sessionId : string) (s : UserSession.t) : bool :=
  bool_decide (UserSession.id s = sessionId).

(** collection.findOne({ id: sessionId }) on the documents *)
Definition find_doc (sessionId : string) (docs : list UserSession.t) : option UserSession.t :=
  List.find (has_id sessionId) docs.

Definition insertOne (session : UserSession.t) : M unit :=
  await_io (EvInsertOne (UserSession.id session)) RepositoryError >>
  modify (set_collection (λ docs, docs ++ [session])).

Definition findOne (sessionId : string) : M (option UserSession.t) :=
  await_io (EvFindOne sessionId) RepositoryError >>
  gets (λ w, find_doc sessionId (collection w)).

(** collection.find({ expiresAt: { $lt: now } }).toArray() *)
Definition findExpired (now : Z) : M (list UserSession.t) :=
  await_io EvFindExpired RepositoryError >>
  gets (λ w, filter (λ s, UserSession.expiresAt s < now) (collection w)).

(** Modelled from the spec: the repository's [delete(id)], which the source
    calls only through [destroy]; it removes the documents of that id. *)
Definition deleteSession (sessionId : string) : M unit :=
  await_io (EvDelete sessionId) RepositoryError >>
  modify (set_collection (filter (λ s, UserSession.id s ≠ sessionId))).

(** ** sessionStore *)

(** Modelled from the spec: [sessionStore.destroy], called by [validate],
    [sessionMiddleware] and [cleanupSessions] and defined nowhere in the
    source: "idempotent removal from cache and repository; destroying a
    nonexistent session is a no-op, not an error". *)
Definition destroy (sessionId : string) : M unit :=
  modify (set_cache (delete sessionId)) >>
  deleteSession sessionId.

Definition session_ttl : Z := 24 * 60 * 60 * 1000.

(** sessionStore.create; [uuid] and [tok] are the results of generateUUID()
    and generateToken(); [created], [now] and [active] are the three readings
    of the clock, in source order: new Date() for createdAt, Date.now() for
    expiresAt and new Date() for lastActive; [request] is the ambient
    request, a free variable of the source. *)
Definition create (uuid tok : string) (created now active : Z) (request : Request)
    (userId : string) (role : string) (permissions : list string) : M UserSession.t :=
  let session :=
    UserSession.mk uuid userId tok role permissions created (now + session_ttl)
      (Metadata.mk (req_ip request) (req_userAgent request) active None) in
  modify (set_cache (<[UserSession.id session := session]>)) >>
  insertOne session >>
  ret session.

(** sessionStore.validate; [None] is the source's [null]. *)
Definition validate (now : Z) (sessionId : string) : M (option UserSession.t) :=
  let* cached := gets (λ w, cache w !! sessionId) in
  let* session :=
    match cached with
    | Some s => ret (Some s)
    | None =>
        let* found := findOne sessionId in
        match found with
        | Some s => modify (set_cache (<[sessionId := s]>)) >> ret (Some s)
        | None => ret None
        end
    end in
  match session with
  | Some s =>
      if bool_decide (UserSession.expiresAt s < now)
      then destroy sessionId >> ret None
      else ret (Some s)
  | None => destroy sessionId >> ret None
  end.

(** ** RoleManager *)

Definition refresh_interval : Z := 5 * 60 * 1000.

(** db.collection('roles').find().toArray() *)
Definition findRoles : M (list Role.t) :=
  await_io EvFindRoles RepositoryError >>
  gets rolesCollection.

(** RoleManager.loadRoles; [loaded] is the clock when the cache is stamped. *)
Definition loadRoles (loaded : Z) : M unit :=
  let* rs := findRoles in
  modify (set_roleCache (λ c, mkRoleCache ∅ (lastUpdated c))) >>
  modify (set_roleCache (λ c,
    mkRoleCache (foldl (λ m r, <[Role.id r := r]> m) (roles c) rs) (lastUpdated c))) >>
  modify (set_roleCache (λ c, mkRoleCache (roles c) loaded)).

(** RoleManager.getRole; [now] is Date.now() at the test. *)
Definition getRole (now loaded : Z) (roleId : string) : M (option Role.t) :=
  let* c := gets roleCache in
  (if bool_decide (now - lastUpdated c > refresh_interval)
   then loadRoles loaded
   else ret tt) >>
  gets (λ w, roles (roleCache w) !! roleId).

(** Array.prototype.includes on strings *)
Definition includes (l : list string) (x : string) : bool := bool_decide (x ∈ l).

(** RoleManager.validatePermissions.  [sessionStore.getCurrentSession] is
    not defined in the source and is taken as a parameter. *)
Definition validatePermissions
    (getCurrentSession : string → M (option UserSession.t))
    (now loaded : Z) (userId : string) (requiredPermissions : list string) : M bool :=
  let* session := getCurrentSession userId in
  match session with
  | None => ret false
  | Some s =>
      let* role := getRole now loaded (UserSession.role s) in
      match role with
      | None => ret false
      | Some r =>
          ret (forallb (λ permission, includes (Role.permissions r) permission)
                       requiredPermissions)
      end
  end.

(** ** SessionSecurity *)

(** Modelled from the spec: [validateIP], [validateUserAgent] and
    [validateDeviceId] are called by [validateSession] and defined nowhere in
    the source; the spec has them as "three independent checks (IP match,
    user-agent match, device-id match)" of the request's values against the
    bound ones. *)
Definition validateIP (current bound : string) : bool :=
  bool_decide (current = bound).

Definition validateUserAgent (current bound : string) : bool :=
  bool_decide (current = bound).

Definition validateDeviceId (current : string) (bound : option string) : bool :=
  bool_decide (bound = Some current).

(** SessionSecurity.validateSession.  [generateDeviceId] is not defined in
    the source and is taken as a parameter; it is awaited inside the array
    literal, after the two checks before it, which have no effect. *)
Definition validateSession (generateDeviceId : Request → M string)
    (now : Z) (request : Request) (sessionId : string) : M bool :=
  let* session := validate now sessionId in
  match session with
  | None => ret false
  | Some s =>
      let* currentDeviceId := generateDeviceId request in
      let securityChecks :=
        [ validateIP (req_ip request) (Metadata.ip (UserSession.metadata s));
          validateUserAgent (req_userAgent request)
                            (Metadata.userAgent (UserSession.metadata s));
          validateDeviceId currentDeviceId
                           (Metadata.deviceId (UserSession.metadata s)) ] in
      ret (forallb (λ check, bool_decide (check = true)) securityChecks)
  end.

(** ** Route protection *)

Inductive Response :=
| ErrorResponse (error : string) (status : Z)
| Next.

(** await auditLogger.log(entry) *)
Definition auditLogger_log (entry : AuditEntry) : M unit :=
  await_io EvAuditLog AuditError >>
  modify (set_auditLog (λ l, l ++ [entry])).

(** The handler returned by withRoles(roles). *)
Definition withRoles (allowedRoles : list string) (request : Request) : M Response :=
  match req_session request with
  | None => ret (ErrorResponse "Unauthorized" 401)
  | Some session =>
      if negb (includes allowedRoles (UserSession.role session))
      then ret (ErrorResponse "Insufficient permissions" 403)
      else
        auditLogger_log (AccessEntry (UserSession.userId session)
                                     (UserSession.role session)
                                     (req_url request) true) >>
        ret Next
  end.

(** ** Session cleanup job *)

(** for (const x of l) { await body(x) } *)
Fixpoint forOf {A} (l : list A) (body : A → M unit) : M unit :=
  match l with
  | [] => ret tt
  | x :: rest => body x >> forOf rest body
  end.

(** The body of the loop of cleanupSessions. *)
Definition cleanupOne (session : UserSession.t) : M unit :=
  destroy (UserSession.id session) >>
  auditLogger_log (SessionExpiredEntry (UserSession.userId session)
                                       (UserSession.id session)).

Definition cleanupSessions (now : Z) : M unit :=
  let* expiredSessions := findExpired now in
  forOf expiredSessions cleanupOne.

(** ** Concurrent calls of validate

    JavaScript runs one task at a time and switches only at an [await].
    A call of [validate] is therefore a task that advances by whole segments:
    from the call to the first [await], and from one [await] to the next. *)

Inductive ValidateTask :=
| Started (sessionId : string)        (* called; nothing has run yet *)
| AwaitFindOne (sessionId : string)   (* suspended at await collection.findOne *)
| AwaitDestroy (sessionId : string)   (* suspended at await this.destroy *)
| Settled (result : Outcome (option UserSession.t)).

(** Entering [destroy]: the cache entry goes and the delete is issued. *)
Definition start_destroy (sessionId : string) (w : World) : ValidateTask * World :=
  (AwaitDestroy sessionId, trace (EvDelete sessionId) (set_cache (delete sessionId) w)).

(** From the test [!session || session.expiresAt < new Date()] on. *)
Definition after_lookup (now : Z) (sessionId : string)
    (session : option UserSession.t) (w : World) : ValidateTask * World :=
  match session with
  | Some s =>
      if bool_decide (UserSession.expiresAt s < now)
      then start_destroy sessionId w
      else (Settled (Ok (Some s)), w)
  | None => start_destroy sessionId w
  end.

(** One segment of a call of [validate], run at time [now]. *)
Definition task_step (now : Z) (t : ValidateTask) (w : World) : ValidateTask * World :=
  match t with
  | Started sessionId =>
      match cache w !! sessionId with
      | Some s => after_lookup now sessionId (Some s) w
      | None => (AwaitFindOne sessionId, trace (EvFindOne sessionId) w)
      end
  | AwaitFindOne sessionId =>
      match settle RepositoryError w with
      | (Throw e, w') => (Settled (Throw e), w')
      | (Ok _, w') =>
          match find_doc sessionId (collection w') with
          | Some s => after_lookup now sessionId (Some s) (set_cache (<[sessionId := s]>) w')
          | None => after_lookup now sessionId None w'
          end
      end
  | AwaitDestroy sessionId =>
      match settle RepositoryError w with
      | (Throw e, w') => (Settled (Throw e), w')
      | (Ok _, w') =>
          (Settled (Ok None),
           set_collection (filter (λ s, UserSession.id s ≠ sessionId)) w')
      end
  | Settled r => (Settled r, w)
  end.

(** A pool of calls in flight over the shared state. *)
Definition Pool : Type := list ValidateTask * World.

(** The scheduler resumes task [i] at time [now]. *)
Definition step_task (p : Pool) (turn : nat * Z) : Pool :=
  match p.1 !! turn.1 with
  | Some t => let '(t', w') := task_step turn.2 t p.2 in (<[turn.1 := t']> p.1, w')
  | None => p
  end.

Definition run_schedule (schedule : list (nat * Z)) (p : Pool) : Pool :=
  foldl step_task p schedule.

(** Every task of the pool runs its next segment, in order. *)
Fixpoint step_all (now : Z) (tasks : list ValidateTask) (w : World)
  : list ValidateTask * World :=
  match tasks with
  | [] => ([], w)
  | t :: rest =>
      let '(t', w') := task_step now t w in
      let '(rest', w'') := step_all now rest w' in
      (t' :: rest', w'')
  end.

Global Instance IoEvent_eq_dec : EqDecision IoEvent.
Proof. solve_decision. Defined.

(** How many times [collection.findOne({ id: sessionId })] was issued. *)
Definition repository_gets (sessionId : string) (w : World) : nat :=
  length (filter (λ ev, ev = EvFindOne sessionId) (ioTrace w)).

(** ** Derived notions used in the statements *)

(** The session a call of [validate] works with: the cached one, and on a
    cache miss the repository's. *)
Definition resolve (sessionId : string) (w : World) : option UserSession.t :=
  match cache w !! sessionId with
  | Some s => Some s
  | None => find_doc sessionId (collection w)
  end.

(** Neither store holds a session of that id. *)
Definition absent (sessionId : string) (w : World) : Prop :=
  cache w !! sessionId = None ∧ find_doc sessionId (collection w) = None.

(** The same call repeated at the given times. *)
Fixpoint validate_each (sessionId : string) (nows : list Z) (w : World)
  : list (Outcome (option UserSession.t)) * World :=
  match nows with
  | [] => ([], w)
  | now :: rest =>
      let '(r, w') := validate now sessionId w in
      let '(rs, w'') := validate_each sessionId rest w' in
      (r :: rs, w'')
  end.

(** ** Sample data *)

Definition sample_session (sessionId role : string) (perms : list string)
    (created expires : Z) : UserSession.t :=
  UserSession.mk sessionId "u1" "tok" role perms created expires
    (Metadata.mk "1.1.1.1" "agent" created (Some "dev1")).

(** A world whose stores hold [sessions] (cached when [cached]). *)
Definition world_of (cached : bool) (sessions : list UserSession.t)
    (fs : list bool) : World :=
  mkWorld
    (if cached
     then foldl (λ m s, <[UserSession.id s := s]> m) ∅ sessions
     else ∅)
    sessions (mkRoleCache ∅ 0) [] [] fs [].

(** One session, expiring at 1000, in the cache and in the repository. *)
Definition sample_world : World :=
  world_of true [sample_session "s1" "admin" ["read"] 0 1000] [false].

Definition sample_request (ip ua : string) (session : option UserSession.t) : Request :=
  mkRequest ip ua "/api/docs" session.

(** A role manager whose cache holds [cached], stamped [stamp], over a roles
    collection holding [stored]. *)
Definition roles_world (cached : list Role.t) (stamp : Z) (stored : list Role.t)
    (sessions : list UserSession.t) (fs : list bool) : World :=
  mkWorld ∅ sessions
    (mkRoleCache (foldl (λ m r, <[Role.id r := r]> m) ∅ cached) stamp)
    stored [] fs [].

Definition viewer_role : Role.t := Role.mk "viewer" "Viewer" ["read"].

(** A stand-in for sessionStore.getCurrentSession: the user's first session
    in the repository. *)
Definition firstSessionOf (userId : string) : M (option UserSession.t) :=
  gets (λ w, List.find (λ s, bool_decide (UserSession.userId s = userId)) (collection w)).

(** A stand-in for generateDeviceId: the device is told by the user agent. *)
Definition deviceOfAgent (request : Request) : M string :=
  ret (if bool_decide (req_userAgent request = "agent") then "dev1" else "dev2").

(** Two expired sessions, cached and stored; the first I/O (the query of the
    expired sessions) is accepted and the second (the first delete) is
    rejected. *)
Definition sweep_world : World :=
  world_of true [sample_session "s1" "admin" ["read"] 0 1000;
                 sample_session "s2" "admin" ["read"] 0 1500] [false; true].

(** A user whose session was granted read and write, under the role viewer,
    which grants read; the role cache is fresh at time 1000. *)
Definition granted_session : UserSession.t :=
  sample_session "s1" "viewer" ["read"; "write"] 0 100000.

Definition perm_world : World :=
  roles_world [viewer_role] 0 [viewer_role] [granted_session] [].

(** ** Session middleware *)

(** try { body } catch (error) { handler(error) } *)
Definition try_catch {A} (body : M A) (handler : Error → M A) : M A :=
  λ w, match body w with
       | (Ok a, w') => (Ok a, w')
       | (Throw e, w') => handler e w'
       end.

(** request.session = session *)
Definition attach_session (request : Request) (session : UserSession.t) : Request :=
  mkRequest (req_ip request) (req_userAgent request) (req_url request) (Some session).

(** sessionMiddleware.  [sessionToken] is request.cookies.get('session_token');
    the test [!sessionToken] holds for a missing cookie and for the empty
    string.  [now] and [now2] are the clock at the two validations; the
    result is the response with the request as the middleware leaves it.
    [sessionStore.updateLastActive] and [generateDeviceId] are not defined
    in the source and are taken as parameters.  The source has one
    try/catch around a body that assigns request.session before its last
    call; the catch is written twice here, once for each value the request
    has when an error is caught. *)
Definition sessionMiddleware (generateDeviceId : Request → M string)
    (updateLastActive : string → M unit) (now now2 : Z)
    (sessionToken : option string) (request : Request) : M (Response * Request) :=
  match sessionToken with
  | None => ret (ErrorResponse "Unauthorized" 401, request)
  | Some tok =>
      if bool_decide (tok = "")
      then ret (ErrorResponse "Unauthorized" 401, request)
      else
      try_catch
        (let* session := validate now tok in
         match session with
         | None => ret (ErrorResponse "Invalid session" 401, request)
         | Some s =>
             let* isSecure :=
               validateSession generateDeviceId now2 request (UserSession.id s) in
             if negb isSecure
             then
               destroy (UserSession.id s) >>
               ret (ErrorResponse "Security check failed" 401, request)
             else
               try_catch
                 (updateLastActive (UserSession.id s) >>
                  ret (Next, attach_session request s))
                 (λ _, ret (ErrorResponse "Internal server error" 500,
                            attach_session request s))
         end)
        (λ _, ret (ErrorResponse "Internal server error" 500, request))
  end.

(** ** Secure session creation *)

(** The options of cookies().set('session_token', token, {...}). *)
Record Cookie := mkCookie {
  cookie_name : string;
  cookie_value : string;
  httpOnly : bool;
  secure : bool;
  sameSite : string;
  maxAge : Z;                     (* seconds *)
  path : string
}.

(** SessionSecurity.setSecureCookie; [production] is
    process.env.NODE_ENV === 'production'.  The cookie that is set is the
    result. *)
Definition setSecureCookie (production : bool) (token : string) : Cookie :=
  mkCookie "session_token" token true production "strict" (24 * 60 * 60) "/".

(** interface User, as far as createSecureSession reads it *)
Record User := mkUser {
  user_id : string;
  user_role : string;
  user_permissions : list string
}.

(** SessionSecurity.createSecureSession; the result is the session together
    with the cookie that was set.  [generateSecureToken] and
    [generateDeviceId] are not defined in the source and are taken as
    parameters.  The result of generateSecureToken is not used by the
    source.  generateDeviceId(request) is awaited while the arguments of
    [sessionStore.create] are evaluated; the object it goes into is a
    fourth argument, which create has no parameter to receive.  [ambient]
    is the request that create reads as its free variable, [request] the
    parameter of createSecureSession; the other arguments are those of
    [create]. *)
Definition createSecureSession (generateSecureToken : User → M string)
    (generateDeviceId : Request → M string)
    (production : bool) (uuid tok : string) (created now active : Z)
    (ambient : Request) (user : User) (request : Request)
  : M (UserSession.t * Cookie) :=
  let* token := generateSecureToken user in
  let* deviceId := generateDeviceId request in
  let* session :=
    create uuid tok created now active ambient
           (user_id user) (user_role user) (user_permissions user) in
  ret (session, setSecureCookie production (UserSession.token session)).

(** ** Session monitoring *)

Module Activity.
Record t := mk {
  timestamp : Z;
  ip : string
}.
End Activity.

(** The result of analyzeLocationChanges. *)
Record LocationChanges (D : Type) := mkLocationChanges {
  suspicious : bool;
  details : D
}.
Arguments mkLocationChanges {D} _ _.
Arguments suspicious {D} _.
Arguments details {D} _.

(** The alerts handed to handleSecurityAlert. *)
Inductive SecurityAlert (D : Type) :=
| ConcurrentSessions (userId : string) (sessions : list Activity.t)
| SuspiciousLocationChanges (userId : string) (changes : D).
Arguments ConcurrentSessions {D} _ _.
Arguments SuspiciousLocationChanges {D} _ _.

(** SessionMonitor.detectAnomalies.  [getRecentActivity],
    [handleSecurityAlert] and [analyzeLocationChanges] are not defined in
    the source and are taken as parameters; the first two are awaited and
    return or throw.  The result is the list of the alerts handed to
    handleSecurityAlert, in order, with the outcome of the call. *)
Definition detectAnomalies {D}
    (getRecentActivity : string → Outcome (list Activity.t))
    (analyzeLocationChanges : list Activity.t → LocationChanges D)
    (handleSecurityAlert : SecurityAlert D → Outcome unit)
    (session : UserSession.t) : list (SecurityAlert D) * Outcome unit :=
  match getRecentActivity (UserSession.userId session) with
  | Throw e => ([], Throw e)
  | Ok recentActivity =>
      let concurrentSessions :=
        filter (λ activity,
                  Activity.timestamp activity > UserSession.createdAt session ∧
                  Activity.ip activity ≠ Metadata.ip (UserSession.metadata session))
               recentActivity in
      let concurrentAlert :=
        ConcurrentSessions (UserSession.userId session) concurrentSessions in
      let '(handed, outcome) :=
        if bool_decide (0 < length concurrentSessions)%nat
        then ([concurrentAlert], handleSecurityAlert concurrentAlert)
        else ([], Ok tt) in
      match outcome with
      | Throw e => (handed, Throw e)
      | Ok _ =>
          let locationChanges := analyzeLocationChanges recentActivity in
          if suspicious locationChanges
          then
            let locationAlert :=
              SuspiciousLocationChanges (UserSession.userId session)
                                        (details locationChanges) in
            (handed ++ [locationAlert], handleSecurityAlert locationAlert)
          else (handed, Ok tt)
      end
  end.

(** ** Further derived notions *)

(** The entry the cleanup job logs for a destroyed session. *)
Definition expired_entry (session : UserSession.t) : AuditEntry :=
  SessionExpiredEntry (UserSession.userId session) (UserSession.id session).

(** The last role of that id among the documents of the roles collection. *)
Definition last_role (roleId : string) (docs : list Role.t) : option Role.t :=
  List.find (λ r, bool_decide (Role.id r = roleId)) (reverse docs).

(** A stand-in for sessionStore.updateLastActive: the cached session of that
    id gets lastActive = now. *)
Definition touchCached (now : Z) (sessionId : string) : M unit :=
  modify (set_cache (alter (λ s,
    UserSession.mk (UserSession.id s) (UserSession.userId s) (UserSession.token s)
      (UserSession.role s) (UserSession.permissions s)
      (UserSession.createdAt s) (UserSession.expiresAt s)
      (Metadata.mk (Metadata.ip (UserSession.metadata s))
                   (Metadata.userAgent (UserSession.metadata s))
                   now
                   (Metadata.deviceId (UserSession.metadata s)))) sessionId)).

(** A stand-in for generateSecureToken. *)
Definition secureTokenOf (user : User) : M string :=
  ret ("secure-" +:+ user_id user).

(** Every cache entry is filed under the id of its session. *)
Definition cache_keyed (w : World) : Prop :=
  ∀ key s, cache w !! key = Some s → UserSession.id s = key.

(** * Properties *)

(** ** I/O that is not rejected *)

Lemma settle_ok err w :
  io_ok w → settle err w = (Ok tt, set_faults (tail (faults w)) w).
Proof.
  unfold io_ok, settle. destruct w as [c d rc rd al fs tr]; simpl.
  intros H. destruct fs as [|b fs]; [done|].
  apply Forall_cons in H as [-> _]. done.
Qed.

Lemma io_ok_tail w : io_ok w → io_ok (set_faults (tail (faults w)) w).
Proof.
  unfold io_ok. simpl. destruct (faults w) as [|b fs]; simpl; [done|].
  intros H. by apply Forall_cons in H as [_ H].
Qed.

Lemma settle_rejected err w fs :
  faults w = true :: fs → settle err w = (Throw err, set_faults fs w).
Proof. unfold settle. by intros ->. Qed.

(** ** Documents of a collection *)

Lemma find_doc_none sessionId docs :
  find_doc sessionId docs = None ↔ Forall (λ s, UserSession.id s ≠ sessionId) docs.
Proof.
  unfold find_doc, has_id. induction docs as [|d docs IH]; simpl.
  - split; [constructor | done].
  - case_bool_decide as Hd.
    + split; [done|]. intros H. apply Forall_cons in H as [H _]. done.
    + rewrite IH. split.
      * intros H. by constructor.
      * intros H. by apply Forall_cons in H as [_ H].
Qed.

Lemma find_doc_deleted sessionId docs :
  find_doc sessionId (filter (λ s, UserSession.id s ≠ sessionId) docs) = None.
Proof.
  apply find_doc_none, Forall_forall. intros s Hs.
  by apply list_elem_of_filter in Hs as [Hs _].
Qed.

Lemma filter_absent sessionId docs :
  find_doc sessionId docs = None →
  filter (λ s, UserSession.id s ≠ sessionId) docs = docs.
Proof.
  rewrite find_doc_none. induction 1 as [|d docs Hd _ IH]; [done|].
  rewrite filter_cons_True by done. by rewrite IH.
Qed.

(** ** destroy *)

Lemma destroy_ok sessionId w :
  io_ok w →
  destroy sessionId w =
    (Ok tt,
     set_collection (filter (λ s, UserSession.id s ≠ sessionId))
       (set_faults (tail (faults w))
          (trace (EvDelete sessionId) (set_cache (delete sessionId) w)))).
Proof.
  intros H. unfold destroy, deleteSession, await_io, issue, bind, modify.
  rewrite settle_ok by done. done.
Qed.

Lemma destroy_absent sessionId w w' r :
  destroy sessionId w = (Ok r, w') → absent sessionId w'.
Proof.
  unfold destroy, deleteSession, await_io, issue, bind, modify, settle. simpl.
  destruct (faults w) as [|[] fs]; intros [= <- <-]; split; simpl;
    first [apply lookup_delete_eq | apply find_doc_deleted].
Qed.

(** C9. destroy is idempotent: when the repository accepts the deletes, a
    second destroy of the same id succeeds and leaves the cache and the
    repository as the first one left them; and destroying an id that neither
    store holds succeeds and changes neither. *)
Theorem destroy_idempotent sessionId w :
  io_ok w →
  ∃ w1 w2,
    destroy sessionId w = (Ok tt, w1) ∧
    destroy sessionId w1 = (Ok tt, w2) ∧
    cache w2 = cache w1 ∧ collection w2 = collection w1 ∧
    (absent sessionId w → cache w1 = cache w ∧ collection w1 = collection w).
Proof.
  intros Hok.
  pose proof (destroy_ok sessionId w Hok) as H1.
  set (w1 := set_collection _ _) in H1.
  assert (Hok1 : io_ok w1) by (apply io_ok_tail in Hok; exact Hok).
  eexists w1, _. split; [exact H1|].
  split; [exact (destroy_ok sessionId w1 Hok1)|]. simpl.
  split; [apply delete_delete_eq|].
  split; [apply filter_absent, find_doc_deleted|].
  intros [Hc Hd]. split; [by apply delete_id | by apply filter_absent].
Qed.

Lemma destroy_idempotent_witness :
  io_ok sample_world ∧
  ∃ w1 w2,
    destroy "s1" sample_world = (Ok tt, w1) ∧
    destroy "s1" w1 = (Ok tt, w2) ∧
    cache w2 = cache w1 ∧ collection w2 = collection w1 ∧
    (absent "s1" sample_world →
     cache w1 = cache sample_world ∧ collection w1 = collection sample_world).
Proof.
  assert (H : io_ok sample_world) by (unfold io_ok; simpl; repeat constructor).
  split; [exact H | exact (destroy_idempotent "s1" sample_world H)].
Defined.

(** ** validate *)

Lemma validate_of_absent now sessionId w :
  io_ok w → absent sessionId w →
  ∃ w', validate now sessionId w = (Ok None, w') ∧ io_ok w' ∧ absent sessionId w'.
Proof.
  intros Hok [Hc Hd].
  unfold validate, findOne, await_io, issue, bind, gets, modify, ret.
  rewrite Hc. simpl. rewrite settle_ok by exact Hok. simpl. rewrite Hd.
  apply io_ok_tail in Hok.
  rewrite destroy_ok by exact Hok.
  eexists. split; [reflexivity|]. split.
  - apply io_ok_tail in Hok. exact Hok.
  - split; simpl; [apply lookup_delete_eq | apply find_doc_deleted].
Qed.

Lemma validate_of_expired now sessionId s w :
  io_ok w → resolve sessionId w = Some s → UserSession.expiresAt s < now →
  ∃ w', validate now sessionId w = (Ok None, w') ∧ io_ok w' ∧ absent sessionId w'.
Proof.
  intros Hok Hres Hexp.
  unfold resolve in Hres.
  unfold validate, findOne, await_io, issue, bind, gets, modify, ret.
  destruct (cache w !! sessionId) as [c|] eqn:Hc; simpl.
  - injection Hres as ->. rewrite bool_decide_eq_true_2 by done.
    rewrite destroy_ok by exact Hok.
    eexists. split; [reflexivity|]. split.
    + apply io_ok_tail in Hok. exact Hok.
    + split; simpl; [apply lookup_delete_eq | apply find_doc_deleted].
  - rewrite settle_ok by exact Hok. simpl. rewrite Hres.
    rewrite bool_decide_eq_true_2 by done.
    apply io_ok_tail in Hok.
    rewrite destroy_ok by exact Hok.
    eexists. split; [reflexivity|]. split.
    + apply io_ok_tail in Hok. exact Hok.
    + split; simpl; [apply lookup_delete_eq | apply find_doc_deleted].
Qed.

Lemma validate_each_absent sessionId nows :
  ∀ w, io_ok w → absent sessionId w →
       Forall (λ r, r = Ok None) (validate_each sessionId nows w).1.
Proof.
  induction nows as [|now nows IH]; intros w Hok Habs; simpl; [constructor|].
  destruct (validate_of_absent now sessionId w Hok Habs) as (w' & -> & Hok' & Habs').
  specialize (IH w' Hok' Habs').
  destruct (validate_each sessionId nows w') as [rs w'']. simpl in *.
  by constructor.
Qed.

(** C1, as amended. When the session that validate works with has
    expiresAt < now (strictly) and the repository accepts the calls, validate
    returns NotFound, the session is gone from the cache and from the
    repository, and every later validate of that id, at any time, returns
    NotFound as well. *)
Theorem validate_expired now sessionId s w :
  io_ok w → resolve sessionId w = Some s → UserSession.expiresAt s < now →
  ∃ w', validate now sessionId w = (Ok None, w') ∧
        absent sessionId w' ∧
        ∀ nows, Forall (λ r, r = Ok None) (validate_each sessionId nows w').1.
Proof.
  intros Hok Hres Hexp.
  destruct (validate_of_expired now sessionId s w Hok Hres Hexp)
    as (w' & Hv & Hok' & Habs).
  exists w'. split; [exact Hv|]. split; [exact Habs|].
  intros nows. by apply validate_each_absent.
Qed.

Lemma validate_expired_witness :
  (io_ok sample_world ∧
   resolve "s1" sample_world = Some (sample_session "s1" "admin" ["read"] 0 1000) ∧
   UserSession.expiresAt (sample_session "s1" "admin" ["read"] 0 1000) < 1001) ∧
  ∃ w', validate 1001 "s1" sample_world = (Ok None, w') ∧
        absent "s1" w' ∧
        ∀ nows, Forall (λ r, r = Ok None) (validate_each "s1" nows w').1.
Proof.
  assert (H1 : io_ok sample_world) by (unfold io_ok; simpl; repeat constructor).
  assert (H2 : resolve "s1" sample_world
               = Some (sample_session "s1" "admin" ["read"] 0 1000))
    by (vm_compute; reflexivity).
  assert (H3 : UserSession.expiresAt (sample_session "s1" "admin" ["read"] 0 1000) < 1001)
    by (simpl; lia).
  split; [auto|].
  exact (validate_expired 1001 "s1" _ sample_world H1 H2 H3).
Defined.

(** C1 fails at the boundary instant: a call at now = expiresAt returns the
    session and destroys nothing, since the test is expiresAt < now. *)
Lemma validate_at_expiry_instant :
  let s := sample_session "s1" "admin" ["read"] 0 1000 in
  1000 >= UserSession.expiresAt s ∧
  validate 1000 "s1" sample_world = (Ok (Some s), sample_world) ∧
  resolve "s1" sample_world = Some s.
Proof. vm_compute. repeat split; congruence. Qed.

(** ** create *)

(** C3, as amended. When the durable write of create is rejected, create
    fails with RepositoryError and the repository is unchanged, so it does
    not hold the new session; the cache entry that create inserted before
    the write is not rolled back and still maps the new id to the session. *)
Theorem create_write_rejected uuid tok created now active request userId role perms w fs :
  faults w = true :: fs →
  ∃ w', create uuid tok created now active request userId role perms w
          = (Throw RepositoryError, w') ∧
        collection w' = collection w ∧
        cache w' =
          <[uuid := UserSession.mk uuid userId tok role perms created (now + session_ttl)
                      (Metadata.mk (req_ip request) (req_userAgent request) active None)]>
            (cache w).
Proof.
  intros Hf.
  unfold create, insertOne, await_io, issue, bind, modify, ret. simpl.
  erewrite settle_rejected by (simpl; exact Hf).
  eexists. split; [reflexivity|]. by split.
Qed.

Lemma create_write_rejected_witness :
  faults (world_of false [] [true]) = true :: [] ∧
  ∃ w', create "s9" "tok" 0 1 2 (sample_request "1.1.1.1" "agent" None) "u1" "admin" ["read"]
               (world_of false [] [true]) = (Throw RepositoryError, w') ∧
        collection w' = collection (world_of false [] [true]) ∧
        cache w' =
          <["s9" := UserSession.mk "s9" "u1" "tok" "admin" ["read"] 0 (1 + session_ttl)
                      (Metadata.mk (req_ip (sample_request "1.1.1.1" "agent" None))
                                   (req_userAgent (sample_request "1.1.1.1" "agent" None))
                                   2 None)]>
            (cache (world_of false [] [true])).
Proof.
  split; [reflexivity|].
  apply (create_write_rejected "s9" "tok" 0 1 2 (sample_request "1.1.1.1" "agent" None)
           "u1" "admin" ["read"] (world_of false [] [true]) []).
  reflexivity.
Defined.

(** C3 fails: after a create whose durable write was rejected, the cache
    holds the new session and the repository does not. *)
Lemma create_failure_keeps_cache_entry :
  ∃ w' s,
    create "s9" "tok" 0 1 2 (sample_request "1.1.1.1" "agent" None) "u1" "admin" ["read"]
           (world_of false [] [true]) = (Throw RepositoryError, w') ∧
    cache w' !! "s9" = Some s ∧
    find_doc "s9" (collection w') = None.
Proof. eexists _, _. vm_compute. repeat split. Qed.

(** ** getRole *)

(** C6, as amended. When a getRole call triggers a reload and the read of
    the roles collection is rejected, the call fails with RepositoryError
    (it does not answer from the cache); the role cache, entries and stamp,
    is left as it was; and any later call, at a time not before this one,
    issues the read of the roles collection again. *)
Theorem getRole_reload_rejected now loaded roleId w fs :
  now - lastUpdated (roleCache w) > refresh_interval →
  faults w = true :: fs →
  ∃ w', getRole now loaded roleId w = (Throw RepositoryError, w') ∧
        roleCache w' = roleCache w ∧
        ∀ now' loaded' roleId', now ≤ now' →
          ioTrace (getRole now' loaded' roleId' w').2 = EvFindRoles :: ioTrace w'.
Proof.
  intros Hstale Hf.
  unfold getRole, loadRoles, findRoles, await_io, issue, bind, gets, modify, ret.
  simpl. rewrite bool_decide_eq_true_2 by exact Hstale. simpl.
  erewrite settle_rejected by (simpl; exact Hf).
  eexists. split; [reflexivity|]. split; [reflexivity|].
  intros now' loaded' roleId' Hle. simpl.
  rewrite bool_decide_eq_true_2 by lia. simpl.
  unfold settle. simpl. by destruct fs as [|[] fs'].
Qed.

Lemma getRole_reload_rejected_witness :
  (300001 - lastUpdated (roleCache (roles_world [viewer_role] 0 [viewer_role] [] [true]))
     > refresh_interval ∧
   faults (roles_world [viewer_role] 0 [viewer_role] [] [true]) = true :: []) ∧
  ∃ w', getRole 300001 300002 "viewer" (roles_world [viewer_role] 0 [viewer_role] [] [true])
          = (Throw RepositoryError, w') ∧
        roleCache w' = roleCache (roles_world [viewer_role] 0 [viewer_role] [] [true]) ∧
        ∀ now' loaded' roleId', 300001 ≤ now' →
          ioTrace (getRole now' loaded' roleId' w').2 = EvFindRoles :: ioTrace w'.
Proof.
  assert (H1 : 300001 - lastUpdated (roleCache (roles_world [viewer_role] 0 [viewer_role] [] [true]))
               > refresh_interval) by (vm_compute; reflexivity).
  split; [split; [exact H1 | reflexivity]|].
  exact (getRole_reload_rejected 300001 300002 "viewer"
           (roles_world [viewer_role] 0 [viewer_role] [] [true]) [] H1 eq_refl).
Defined.

(** C6 fails: the cache holds the role, the reload is rejected, and the call
    throws instead of answering with the cached role. *)
Lemma getRole_throws_on_rejected_reload :
  roles (roleCache (roles_world [viewer_role] 0 [viewer_role] [] [true])) !! "viewer"
    = Some viewer_role ∧
  (getRole 300001 300002 "viewer" (roles_world [viewer_role] 0 [viewer_role] [] [true])).1
    = Throw RepositoryError.
Proof. vm_compute. split; reflexivity. Qed.

(** ** withRoles *)

(** What the guard does on each of its three paths: with a session whose
    role is listed, and the audit logger accepting the call, one entry of
    type "access" with allowed = true is appended and the request proceeds;
    with no session (401) or a role that is not listed (403) the guard
    returns before the call of the audit logger. *)
Theorem withRoles_audit allowedRoles request w :
  (∀ session,
      req_session request = Some session →
      includes allowedRoles (UserSession.role session) = true →
      io_ok w →
      ∃ w', withRoles allowedRoles request w = (Ok Next, w') ∧
            auditLog w' =
              auditLog w ++ [AccessEntry (UserSession.userId session)
                                         (UserSession.role session)
                                         (req_url request) true]) ∧
  (∀ session,
      req_session request = Some session →
      includes allowedRoles (UserSession.role session) = false →
      withRoles allowedRoles request w
        = (Ok (ErrorResponse "Insufficient permissions" 403), w)) ∧
  (req_session request = None →
   withRoles allowedRoles request w = (Ok (ErrorResponse "Unauthorized" 401), w)).
Proof.
  unfold withRoles. repeat split.
  - intros session -> -> Hok. simpl.
    unfold auditLogger_log, await_io, issue, bind, modify, ret. simpl.
    rewrite settle_ok by exact Hok. simpl. eauto.
  - by intros session -> ->.
  - by intros ->.
Qed.

Lemma withRoles_audit_witness :
  let s := sample_session "s1" "admin" ["read"] 0 1000 in
  (∃ w', withRoles ["admin"; "enterprise_admin"] (sample_request "1.1.1.1" "agent" (Some s))
                   sample_world = (Ok Next, w') ∧
         auditLog w' = auditLog sample_world ++ [AccessEntry "u1" "admin" "/api/docs" true]) ∧
  withRoles ["enterprise_admin"] (sample_request "1.1.1.1" "agent" (Some s)) sample_world
    = (Ok (ErrorResponse "Insufficient permissions" 403), sample_world) ∧
  withRoles ["admin"] (sample_request "1.1.1.1" "agent" None) sample_world
    = (Ok (ErrorResponse "Unauthorized" 401), sample_world).
Proof.
  intros s. split; [|split].
  - apply (proj1 (withRoles_audit ["admin"; "enterprise_admin"]
                    (sample_request "1.1.1.1" "agent" (Some s)) sample_world) s);
      [reflexivity | vm_compute; reflexivity | unfold io_ok; simpl; repeat constructor].
  - apply (proj1 (proj2 (withRoles_audit ["enterprise_admin"]
                    (sample_request "1.1.1.1" "agent" (Some s)) sample_world)) s);
      [reflexivity | vm_compute; reflexivity].
  - apply (proj2 (proj2 (withRoles_audit ["admin"]
                    (sample_request "1.1.1.1" "agent" None) sample_world))).
    reflexivity.
Defined.

(** C5 at the failing inputs: the guard is meant to log the access attempt
    with its [allowed] flag, and on both denial paths, 401 and 403, it
    returns before the log: the decision is taken and the audit log is as it
    was. *)
Lemma withRoles_denials_not_audited :
  let s := sample_session "s1" "admin" ["read"] 0 1000 in
  (∃ w', withRoles ["admin"] (sample_request "1.1.1.1" "agent" None) sample_world
           = (Ok (ErrorResponse "Unauthorized" 401), w') ∧ auditLog w' = auditLog sample_world) ∧
  (∃ w', withRoles ["enterprise_admin"] (sample_request "1.1.1.1" "agent" (Some s)) sample_world
           = (Ok (ErrorResponse "Insufficient permissions" 403), w') ∧
         auditLog w' = auditLog sample_world).
Proof. split; eexists; split; reflexivity. Qed.

(** ** cleanupSessions *)

Lemma forOf_app {A} (body : A → M unit) pre rest w :
  forOf (pre ++ rest) body w =
    match forOf pre body w with
    | (Ok _, w1) => forOf rest body w1
    | (Throw e, w1) => (Throw e, w1)
    end.
Proof.
  revert w. induction pre as [|x pre IH]; intros w; simpl; [done|].
  unfold bind. destruct (body x w) as [[[]|e] w1]; [apply IH | done].
Qed.

(** Whatever its outcome, processing one candidate leaves the documents of
    the other ids in the repository, and the cache entries of the other ids. *)
Lemma cleanupOne_others s t r w w' :
  cleanupOne s w = (r, w') →
  UserSession.id t ≠ UserSession.id s →
  (t ∈ collection w → t ∈ collection w') ∧
  cache w' !! UserSession.id t = cache w !! UserSession.id t.
Proof.
  unfold cleanupOne, auditLogger_log, destroy, deleteSession, await_io, issue,
    settle, bind, modify.
  destruct w as [c d rc rd al fs tr]. simpl.
  intros H Hne.
  destruct fs as [|[] fs]; simpl in H.
  - injection H as <- <-. simpl. split.
    + intros Ht. by apply list_elem_of_filter.
    + by apply lookup_delete_ne.
  - injection H as <- <-. simpl. split; [done | by apply lookup_delete_ne].
  - destruct fs as [|[] fs']; simpl in H; injection H as <- <-; simpl;
      (split; [intros Ht; by apply list_elem_of_filter | by apply lookup_delete_ne]).
Qed.

Lemma forOf_cleanup_others t pre :
  ∀ r w w',
    forOf pre cleanupOne w = (r, w') →
    UserSession.id t ∉ UserSession.id <$> pre →
    (t ∈ collection w → t ∈ collection w') ∧
    cache w' !! UserSession.id t = cache w !! UserSession.id t.
Proof.
  induction pre as [|s pre IH]; intros r w w' H Hnot; simpl in H.
  - unfold ret in H. by injection H as <- <-.
  - rewrite fmap_cons in Hnot. apply not_elem_of_cons in Hnot as [Hne Hnot].
    unfold bind in H. destruct (cleanupOne s w) as [[[]|e] w1] eqn:H1.
    + destruct (cleanupOne_others s t _ w w1 H1 Hne) as [Hd Hc].
      destruct (IH _ _ _ H Hnot) as [Hd' Hc'].
      split; [auto | congruence].
    + injection H as <- <-. exact (cleanupOne_others s t _ w w1 H1 Hne).
Qed.

(** A candidate whose processing throws added nothing to the audit log. *)
Lemma cleanupOne_throw_audit s e w w' :
  cleanupOne s w = (Throw e, w') → auditLog w' = auditLog w.
Proof.
  unfold cleanupOne, auditLogger_log, destroy, deleteSession, await_io, issue,
    settle, bind, modify.
  destruct w as [c d rc rd al fs tr]. simpl.
  destruct fs as [|[] fs]; simpl.
  - discriminate.
  - by intros [= <- <-].
  - destruct fs as [|[] fs']; simpl; [discriminate | by intros [= <- <-] | discriminate].
Qed.

(** C8, as amended. A failure while destroying or auditing one candidate is
    not isolated: when the candidates before it were processed and its own
    processing throws, the sweep stops with that error in the state reached
    at that point; the failing candidate gets no audit entry, and the
    candidates after it (of other ids) are not processed: they are still in
    the repository, their cache entries are untouched, and nothing is
    audited for them. *)
Theorem cleanup_stops_at_failure now w w0 pre s post w1 e w2 :
  findExpired now w = (Ok (pre ++ s :: post), w0) →
  forOf pre cleanupOne w0 = (Ok tt, w1) →
  cleanupOne s w1 = (Throw e, w2) →
  cleanupSessions now w = (Throw e, w2) ∧
  auditLog w2 = auditLog w1 ∧
  ∀ t, t ∈ post → UserSession.id t ∉ UserSession.id <$> (pre ++ [s]) →
       t ∈ collection w2 ∧ cache w2 !! UserSession.id t = cache w0 !! UserSession.id t.
Proof.
  intros Hfind Hpre Hs. split; [|split].
  - unfold cleanupSessions, bind. rewrite Hfind.
    rewrite forOf_app, Hpre. simpl. unfold bind. by rewrite Hs.
  - exact (cleanupOne_throw_audit s e w1 w2 Hs).
  - intros t Ht Hnot.
    rewrite fmap_app in Hnot. apply not_elem_of_app in Hnot as [Hpre' Hs'].
    simpl in Hs'. apply not_elem_of_cons in Hs' as [Hne _].
    assert (Hin : t ∈ collection w0).
    { revert Hfind. unfold findExpired, await_io, issue, settle, bind, gets, modify.
      simpl. destruct (faults w) as [|[] fs]; intros [= Hl <-]; simpl;
        assert (Ht' : t ∈ pre ++ s :: post) by set_solver;
        rewrite <- Hl in Ht'; by apply list_elem_of_filter in Ht' as [_ Ht']. }
    destruct (forOf_cleanup_others t pre _ w0 w1 Hpre Hpre') as [Hd1 Hc1].
    destruct (cleanupOne_others s t _ w1 w2 Hs Hne) as [Hd2 Hc2].
    split; [auto | congruence].
Qed.

Lemma cleanup_stops_at_failure_witness :
  let a := sample_session "s1" "admin" ["read"] 0 1000 in
  let b := sample_session "s2" "admin" ["read"] 0 1500 in
  let w0 := (findExpired 2000 sweep_world).2 in
  let w2 := (cleanupOne a w0).2 in
  (findExpired 2000 sweep_world = (Ok ([] ++ a :: [b]), w0) ∧
   forOf [] cleanupOne w0 = (Ok tt, w0) ∧
   cleanupOne a w0 = (Throw RepositoryError, w2)) ∧
  cleanupSessions 2000 sweep_world = (Throw RepositoryError, w2) ∧
  auditLog w2 = auditLog w0 ∧
  ∀ t, t ∈ [b] → UserSession.id t ∉ UserSession.id <$> ([] ++ [a]) →
       t ∈ collection w2 ∧ cache w2 !! UserSession.id t = cache w0 !! UserSession.id t.
Proof.
  intros a b w0 w2.
  assert (H1 : findExpired 2000 sweep_world = (Ok ([] ++ a :: [b]), w0))
    by (vm_compute; reflexivity).
  assert (H2 : forOf [] cleanupOne w0 = (Ok tt, w0)) by reflexivity.
  assert (H3 : cleanupOne a w0 = (Throw RepositoryError, w2))
    by (vm_compute; reflexivity).
  split; [auto|].
  exact (cleanup_stops_at_failure 2000 sweep_world w0 [] a [b] w0
           RepositoryError w2 H1 H2 H3).
Defined.

(** C8 fails: the delete of the first candidate is rejected, the sweep
    throws, and the second candidate, expired as well, is still cached and
    stored, with nothing audited. *)
Lemma cleanup_aborts_batch :
  let b := sample_session "s2" "admin" ["read"] 0 1500 in
  UserSession.expiresAt b < 2000 ∧
  ∃ w', cleanupSessions 2000 sweep_world = (Throw RepositoryError, w') ∧
        find_doc "s2" (collection w') = Some b ∧
        cache w' !! "s2" = Some b ∧
        auditLog w' = [].
Proof. split; [reflexivity|]. eexists. vm_compute. repeat split. Qed.

(** ** validatePermissions *)

Lemma every_includes (perms required : list string) :
  forallb (λ permission, includes perms permission) required = true ↔
  ∀ p, p ∈ required → p ∈ perms.
Proof.
  unfold includes. induction required as [|q required IH]; simpl.
  - split; [|done]. intros _ p Hp. by apply elem_of_nil in Hp.
  - rewrite andb_true_iff, IH, bool_decide_eq_true. split.
    + intros [Hq Hall] p Hp. apply elem_of_cons in Hp as [->|Hp]; auto.
    + intros Hall. split; [apply Hall; left | intros p Hp; apply Hall; by right].
Qed.

Lemma validatePermissions_resolved getCurrentSession now loaded userId required
    w s w1 r w2 :
  getCurrentSession userId w = (Ok (Some s), w1) →
  getRole now loaded (UserSession.role s) w1 = (Ok (Some r), w2) →
  validatePermissions getCurrentSession now loaded userId required w =
    (Ok (forallb (λ permission, includes (Role.permissions r) permission) required), w2).
Proof.
  intros Hs Hr. unfold validatePermissions, bind at 1. rewrite Hs.
  unfold bind. by rewrite Hr.
Qed.

(** C2, as amended. The permission check returns true if and only if the
    user has a current session, the role of that session resolves to a role
    of the role cache, and every required permission is contained in the
    permission set of that role (not of the session); in particular a
    session whose role grants exactly {read} is denied a request requiring
    {read, write}. *)
Theorem validatePermissions_role_subset getCurrentSession now loaded userId w :
  (∀ required w',
      validatePermissions getCurrentSession now loaded userId required w = (Ok true, w') ↔
      ∃ s w1 r,
        getCurrentSession userId w = (Ok (Some s), w1) ∧
        getRole now loaded (UserSession.role s) w1 = (Ok (Some r), w') ∧
        ∀ p, p ∈ required → p ∈ Role.permissions r) ∧
  (∀ s w1 r w',
      getCurrentSession userId w = (Ok (Some s), w1) →
      getRole now loaded (UserSession.role s) w1 = (Ok (Some r), w') →
      Role.permissions r = ["read"] →
      validatePermissions getCurrentSession now loaded userId ["read"; "write"] w
        = (Ok false, w')).
Proof.
  split.
  - intros required w'. split.
    + unfold validatePermissions, bind at 1.
      destruct (getCurrentSession userId w) as [[[s|]|e] w1] eqn:Hs;
        [|unfold ret; congruence|congruence].
      unfold bind.
      destruct (getRole now loaded (UserSession.role s) w1) as [[[r|]|e] w2] eqn:Hr;
        [|unfold ret; congruence|congruence].
      unfold ret. intros [= Hall <-].
      exists s, w1, r. repeat split; [done|]. by apply every_includes.
    + intros (s & w1 & r & Hs & Hr & Hall).
      rewrite (validatePermissions_resolved _ _ _ _ _ _ _ _ _ _ Hs Hr).
      by apply every_includes in Hall as ->.
  - intros s w1 r w' Hs Hr Hperms.
    rewrite (validatePermissions_resolved _ _ _ _ _ _ _ _ _ _ Hs Hr).
    rewrite Hperms. reflexivity.
Qed.

(** C10. With a current session whose role resolves to a known role, the
    permission check with no required permission returns true. *)
Theorem validatePermissions_empty getCurrentSession now loaded userId w s w1 r w2 :
  getCurrentSession userId w = (Ok (Some s), w1) →
  getRole now loaded (UserSession.role s) w1 = (Ok (Some r), w2) →
  validatePermissions getCurrentSession now loaded userId [] w = (Ok true, w2).
Proof.
  intros Hs Hr.
  by rewrite (validatePermissions_resolved _ _ _ _ _ _ _ _ _ _ Hs Hr).
Qed.

Lemma validatePermissions_role_subset_witness :
  (firstSessionOf "u1" perm_world = (Ok (Some granted_session), perm_world) ∧
   getRole 1000 1000 (UserSession.role granted_session) perm_world
     = (Ok (Some viewer_role), perm_world) ∧
   Role.permissions viewer_role = ["read"]) ∧
  validatePermissions firstSessionOf 1000 1000 "u1" ["read"; "write"] perm_world
    = (Ok false, perm_world).
Proof.
  assert (H1 : firstSessionOf "u1" perm_world = (Ok (Some granted_session), perm_world))
    by (vm_compute; reflexivity).
  assert (H2 : getRole 1000 1000 (UserSession.role granted_session) perm_world
               = (Ok (Some viewer_role), perm_world))
    by (vm_compute; reflexivity).
  assert (H3 : Role.permissions viewer_role = ["read"]) by reflexivity.
  split; [auto|].
  exact (proj2 (validatePermissions_role_subset firstSessionOf 1000 1000 "u1" perm_world)
           granted_session perm_world viewer_role perm_world H1 H2 H3).
Defined.

(** C2 fails: every required permission is in the permission set granted to
    the session, and the check returns false, because the role of the
    session does not grant write. *)
Lemma validatePermissions_ignores_session_permissions :
  firstSessionOf "u1" perm_world = (Ok (Some granted_session), perm_world) ∧
  (∀ p, p ∈ ["read"; "write"] → p ∈ UserSession.permissions granted_session) ∧
  validatePermissions firstSessionOf 1000 1000 "u1" ["read"; "write"] perm_world
    = (Ok false, perm_world).
Proof.
  split; [vm_compute; reflexivity|]. split; [|vm_compute; reflexivity].
  intros p Hp. exact Hp.
Qed.

Lemma validatePermissions_empty_witness :
  (firstSessionOf "u1" perm_world = (Ok (Some granted_session), perm_world) ∧
   getRole 1000 1000 (UserSession.role granted_session) perm_world
     = (Ok (Some viewer_role), perm_world)) ∧
  validatePermissions firstSessionOf 1000 1000 "u1" [] perm_world = (Ok true, perm_world).
Proof.
  assert (H1 : firstSessionOf "u1" perm_world = (Ok (Some granted_session), perm_world))
    by (vm_compute; reflexivity).
  assert (H2 : getRole 1000 1000 (UserSession.role granted_session) perm_world
               = (Ok (Some viewer_role), perm_world))
    by (vm_compute; reflexivity).
  split; [auto|].
  exact (validatePermissions_empty firstSessionOf 1000 1000 "u1" perm_world
           granted_session perm_world viewer_role perm_world H1 H2).
Defined.

(** ** validateSession *)

Lemma validateSession_session generateDeviceId now request sessionId w s w1 current w' :
  validate now sessionId w = (Ok (Some s), w1) →
  generateDeviceId request w1 = (Ok current, w') →
  validateSession generateDeviceId now request sessionId w =
    (Ok (bool_decide (req_ip request = Metadata.ip (UserSession.metadata s)) &&
         bool_decide (req_userAgent request = Metadata.userAgent (UserSession.metadata s)) &&
         bool_decide (Metadata.deviceId (UserSession.metadata s) = Some current)), w').
Proof.
  intros Hv Hg. unfold validateSession, bind at 1. rewrite Hv.
  unfold bind, ret. rewrite Hg.
  unfold validateIP, validateUserAgent, validateDeviceId. simpl.
  repeat case_bool_decide; simpl; done.
Qed.

(** C4. The security check passes only when all three comparisons pass: it
    answers true exactly when validate returns a session, the device id of
    the request is generated, and the request's IP, user agent and device
    id all match the values bound to that session (so never for a missing
    or expired session, and never on a mismatch); and for a session that
    validate returns, when exactly one of the three differs from the bound
    value and the other two match, it answers false. *)
Theorem validateSession_all_three generateDeviceId now request sessionId w :
  (∀ w',
      validateSession generateDeviceId now request sessionId w = (Ok true, w') ↔
      ∃ s w1 current,
        validate now sessionId w = (Ok (Some s), w1) ∧
        generateDeviceId request w1 = (Ok current, w') ∧
        req_ip request = Metadata.ip (UserSession.metadata s) ∧
        req_userAgent request = Metadata.userAgent (UserSession.metadata s) ∧
        Metadata.deviceId (UserSession.metadata s) = Some current) ∧
  (∀ s w1 current w',
      validate now sessionId w = (Ok (Some s), w1) →
      generateDeviceId request w1 = (Ok current, w') →
      let m := UserSession.metadata s in
      (req_ip request ≠ Metadata.ip m ∧
       req_userAgent request = Metadata.userAgent m ∧
       Metadata.deviceId m = Some current) ∨
      (req_ip request = Metadata.ip m ∧
       req_userAgent request ≠ Metadata.userAgent m ∧
       Metadata.deviceId m = Some current) ∨
      (req_ip request = Metadata.ip m ∧
       req_userAgent request = Metadata.userAgent m ∧
       Metadata.deviceId m ≠ Some current) →
      validateSession generateDeviceId now request sessionId w = (Ok false, w')).
Proof.
  split.
  - intros w'. split.
    + unfold validateSession, bind at 1.
      destruct (validate now sessionId w) as [[[s|]|e] w1] eqn:Hv;
        [|unfold ret; congruence|congruence].
      unfold bind, ret.
      destruct (generateDeviceId request w1) as [[current|e] w2] eqn:Hg; [|congruence].
      unfold validateIP, validateUserAgent, validateDeviceId. simpl.
      intros [= H <-]. exists s, w1, current.
      repeat case_bool_decide; simpl in H; try discriminate; done.
    + intros (s & w1 & current & Hv & Hg & Hip & Hua & Hdev).
      rewrite (validateSession_session _ _ _ _ _ _ _ _ _ Hv Hg).
      by rewrite !bool_decide_eq_true_2.
  - intros s w1 current w' Hv Hg m Hone.
    rewrite (validateSession_session _ _ _ _ _ _ _ _ _ Hv Hg). fold m.
    destruct Hone as [(Hip & Hua & Hdev)|[(Hip & Hua & Hdev)|(Hip & Hua & Hdev)]];
      repeat case_bool_decide; simpl; done.
Qed.

Lemma validateSession_all_three_witness :
  let s := sample_session "s1" "admin" ["read"] 0 1000 in
  let rq := sample_request "2.2.2.2" "agent" None in
  (validate 500 "s1" sample_world = (Ok (Some s), sample_world) ∧
   deviceOfAgent rq sample_world = (Ok "dev1", sample_world)) ∧
  validateSession deviceOfAgent 500 rq "s1" sample_world = (Ok false, sample_world).
Proof.
  intros s rq.
  assert (H1 : validate 500 "s1" sample_world = (Ok (Some s), sample_world))
    by (vm_compute; reflexivity).
  assert (H2 : deviceOfAgent rq sample_world = (Ok "dev1", sample_world))
    by (vm_compute; reflexivity).
  split; [auto|].
  apply (proj2 (validateSession_all_three deviceOfAgent 500 rq "s1" sample_world)
           s sample_world "dev1" sample_world H1 H2).
  left. simpl. repeat split. discriminate.
Defined.

(** ** Concurrent validate calls *)

(** A call that runs alone goes through at most three segments, and they
    compose to [validate]. *)
Lemma task_segments_validate now sessionId w :
  let '(t1, w1) := task_step now (Started sessionId) w in
  let '(t2, w2) := task_step now t1 w1 in
  let '(t3, w3) := task_step now t2 w2 in
  (t3, w3) = (Settled (validate now sessionId w).1, (validate now sessionId w).2).
Proof.
  unfold validate, findOne, destroy, deleteSession, await_io, issue, settle,
    bind, gets, modify, ret, task_step, after_lookup, start_destroy.
  destruct w as [c d rc rd al fs tr]. simpl.
  destruct (c !! sessionId) as [s|]; simpl.
  - case_bool_decide; simpl; [|done].
    destruct fs as [|[] fs]; simpl; done.
  - destruct fs as [|[] fs]; simpl; [| done |].
    + destruct (find_doc sessionId d) as [s|]; simpl; [case_bool_decide; simpl|]; done.
    + destruct (find_doc sessionId d) as [s|]; simpl;
        [case_bool_decide; simpl|]; destruct fs as [|[] fs]; simpl; done.
Qed.

Lemma repository_gets_trace sessionId w :
  repository_gets sessionId (trace (EvFindOne sessionId) w)
  = S (repository_gets sessionId w).
Proof. unfold repository_gets. simpl. by rewrite filter_cons_True. Qed.

(** C7, as amended. Calls of validate for an id that is not in the cache do
    not share a repository read: each call that finds the cache empty for
    the id issues its own get, so n calls that all start before any of the
    reads completes issue n gets (two calls: two reads), and all of them are
    then waiting for their own read. *)
Theorem concurrent_validates_read_each now sessionId n w :
  cache w !! sessionId = None →
  ∃ w', step_all now (replicate n (Started sessionId)) w
          = (replicate n (AwaitFindOne sessionId), w') ∧
        repository_gets sessionId w' = (repository_gets sessionId w + n)%nat ∧
        cache w' = cache w.
Proof.
  revert w. induction n as [|n IH]; intros w Hmiss; simpl.
  - exists w. split; [done|]. split; [lia | done].
  - rewrite Hmiss.
    destruct (IH (trace (EvFindOne sessionId) w) Hmiss) as (w' & -> & Hgets & Hcache).
    exists w'. split; [done|]. split; [|done].
    rewrite Hgets, repository_gets_trace. lia.
Qed.

Lemma concurrent_validates_read_each_witness :
  cache (world_of false [sample_session "s1" "admin" ["read"] 0 1000] []) !! "s1" = None ∧
  ∃ w', step_all 5 (replicate 2 (Started "s1"))
                 (world_of false [sample_session "s1" "admin" ["read"] 0 1000] [])
          = (replicate 2 (AwaitFindOne "s1"), w') ∧
        repository_gets "s1" w'
          = (repository_gets "s1"
               (world_of false [sample_session "s1" "admin" ["read"] 0 1000] []) + 2)%nat ∧
        cache w' = cache (world_of false [sample_session "s1" "admin" ["read"] 0 1000] []).
Proof.
  split; [reflexivity|].
  apply (concurrent_validates_read_each 5 "s1" 2
           (world_of false [sample_session "s1" "admin" ["read"] 0 1000] [])).
  reflexivity.
Defined.

(** C7 fails: two calls of validate for the same stored, uncached session,
    both started before either read completes, issue two repository gets;
    each call is answered from its own read. *)
Lemma two_concurrent_validates_two_gets :
  let s := sample_session "s1" "admin" ["read"] 0 1000 in
  let w := world_of false [s] [] in
  cache w !! "s1" = None ∧
  ∃ w', run_schedule [(0%nat, 5); (1%nat, 5); (0%nat, 5); (1%nat, 5)]
                     ([Started "s1"; Started "s1"], w)
          = ([Settled (Ok (Some s)); Settled (Ok (Some s))], w') ∧
        repository_gets "s1" w' = 2%nat.
Proof. split; [reflexivity|]. eexists. vm_compute. split; reflexivity. Qed.

(** * Further properties of the code *)

Ltac unfold_store :=
  unfold validate, create, insertOne, findOne, destroy, deleteSession, await_io,
    issue, settle, bind, gets, modify, ret in *.

(** Case analysis on the outcome of the next awaited operation. *)
Ltac case_fault :=
  match goal with
  | |- context [match ?l with [] => _ | _ :: _ => _ end] =>
      is_var l; destruct l as [|[] ?]; simpl
  end.

(** ** create and validate *)

Lemma find_doc_app sessionId docs docs' :
  find_doc sessionId (docs ++ docs') =
    match find_doc sessionId docs with
    | Some s => Some s
    | None => find_doc sessionId docs'
    end.
Proof.
  unfold find_doc. induction docs as [|d docs IH]; simpl; [done|].
  by destruct (has_id sessionId d).
Qed.

Lemma create_ok_eq uuid tok created now active request userId role perms w :
  io_ok w →
  ∃ w', create uuid tok created now active request userId role perms w =
          (Ok (UserSession.mk uuid userId tok role perms created (now + session_ttl)
                 (Metadata.mk (req_ip request) (req_userAgent request) active None)), w') ∧
        io_ok w' ∧
        cache w' =
          <[uuid := UserSession.mk uuid userId tok role perms created (now + session_ttl)
                      (Metadata.mk (req_ip request) (req_userAgent request) active None)]>
            (cache w) ∧
        collection w' =
          collection w ++
            [UserSession.mk uuid userId tok role perms created (now + session_ttl)
               (Metadata.mk (req_ip request) (req_userAgent request) active None)].
Proof.
  intros Hok. unfold create, insertOne, await_io, issue, bind, modify, ret. simpl.
  rewrite settle_ok by exact Hok. simpl.
  eexists. split; [reflexivity|]. split; [|done].
  apply io_ok_tail in Hok. exact Hok.
Qed.

(** X1. A create whose durable write is accepted returns a session with the
    generated id and token and the given user, role and permissions;
    createdAt is the first reading of the clock, expiresAt is the second
    reading plus 24 hours, lastActive the third, and the IP and user agent
    are those of the ambient request.  The cache maps the id to the
    session, the repository holds it as its last document, and when the id
    was not stored before, a lookup by id in the repository finds it.  When
    the clock did not go back between the first two readings, the session
    expires after its creation, at least 24 hours later. *)
Theorem create_stores_session uuid tok created now active request userId role perms w :
  io_ok w →
  ∃ s w',
    create uuid tok created now active request userId role perms w = (Ok s, w') ∧
    UserSession.id s = uuid ∧ UserSession.token s = tok ∧
    UserSession.userId s = userId ∧ UserSession.role s = role ∧
    UserSession.permissions s = perms ∧
    UserSession.createdAt s = created ∧
    UserSession.expiresAt s = now + 86400000 ∧
    Metadata.lastActive (UserSession.metadata s) = active ∧
    Metadata.ip (UserSession.metadata s) = req_ip request ∧
    Metadata.userAgent (UserSession.metadata s) = req_userAgent request ∧
    cache w' !! uuid = Some s ∧
    collection w' = collection w ++ [s] ∧
    (find_doc uuid (collection w) = None → find_doc uuid (collection w') = Some s) ∧
    (created ≤ now →
     UserSession.createdAt s < UserSession.expiresAt s ∧
     86400000 ≤ UserSession.expiresAt s - UserSession.createdAt s).
Proof.
  intros Hok.
  destruct (create_ok_eq uuid tok created now active request userId role perms w Hok)
    as (w' & Hc & _ & Hcache & Hcoll).
  eexists _, w'. split; [exact Hc|]. simpl.
  repeat split; try reflexivity.
  - rewrite Hcache. apply lookup_insert_eq.
  - exact Hcoll.
  - intros Hnone. rewrite Hcoll, find_doc_app, Hnone.
    unfold find_doc, has_id. simpl. by rewrite bool_decide_eq_true_2.
  - unfold session_ttl. lia.
  - unfold session_ttl. lia.
Qed.

Lemma create_stores_session_witness :
  io_ok sample_world ∧
  ∃ s w',
    create "s9" "tok9" 5000 5001 5002 (sample_request "1.1.1.1" "agent" None)
           "u1" "admin" ["read"] sample_world = (Ok s, w') ∧
    UserSession.id s = "s9" ∧ UserSession.token s = "tok9" ∧
    UserSession.userId s = "u1" ∧ UserSession.role s = "admin" ∧
    UserSession.permissions s = ["read"] ∧
    UserSession.createdAt s = 5000 ∧
    UserSession.expiresAt s = 5001 + 86400000 ∧
    Metadata.lastActive (UserSession.metadata s) = 5002 ∧
    Metadata.ip (UserSession.metadata s) = req_ip (sample_request "1.1.1.1" "agent" None) ∧
    Metadata.userAgent (UserSession.metadata s)
      = req_userAgent (sample_request "1.1.1.1" "agent" None) ∧
    cache w' !! "s9" = Some s ∧
    collection w' = collection sample_world ++ [s] ∧
    (find_doc "s9" (collection sample_world) = None →
     find_doc "s9" (collection w') = Some s) ∧
    (5000 ≤ 5001 →
     UserSession.createdAt s < UserSession.expiresAt s ∧
     86400000 ≤ UserSession.expiresAt s - UserSession.createdAt s).
Proof.
  assert (H : io_ok sample_world) by (unfold io_ok; simpl; repeat constructor).
  split; [exact H|].
  exact (create_stores_session "s9" "tok9" 5000 5001 5002
           (sample_request "1.1.1.1" "agent" None) "u1" "admin" ["read"] sample_world H).
Defined.

Lemma validate_cached now sessionId s w :
  cache w !! sessionId = Some s → now ≤ UserSession.expiresAt s →
  validate now sessionId w = (Ok (Some s), w).
Proof.
  intros Hc Hle. unfold validate, bind, gets, ret. rewrite Hc.
  by rewrite bool_decide_eq_false_2 by lia.
Qed.

(** X2. The lifetime of a created session runs from the clock reading that
    create takes for expiresAt: after a create that succeeded with that
    reading now, every validate of the new id at a time up to and including
    now + 24h returns the session and leaves the state as it is; a validate
    at any later time returns NotFound and leaves neither store holding the
    id. *)
Theorem created_session_lifetime uuid tok created now active request userId role perms
    w s w' :
  io_ok w →
  create uuid tok created now active request userId role perms w = (Ok s, w') →
  UserSession.expiresAt s = now + 86400000 ∧
  (∀ later, later ≤ now + 86400000 → validate later uuid w' = (Ok (Some s), w')) ∧
  (∀ later, now + 86400000 < later →
     ∃ w'', validate later uuid w' = (Ok None, w'') ∧ absent uuid w'').
Proof.
  intros Hok Hcreate.
  destruct (create_ok_eq uuid tok created now active request userId role perms w Hok)
    as (w0 & Hc & Hok' & Hcache & _).
  rewrite Hcreate in Hc. injection Hc as Hs <-.
  assert (Hhit : cache w' !! uuid = Some s)
    by (rewrite Hcache, Hs; apply lookup_insert_eq).
  assert (Hexp : UserSession.expiresAt s = now + 86400000) by (by rewrite Hs).
  split; [exact Hexp|]. split.
  - intros later Hle. apply validate_cached; [exact Hhit | lia].
  - intros later Hlt.
    destruct (validate_of_expired later uuid s w' Hok') as (w'' & Hv & _ & Habs).
    + unfold resolve. by rewrite Hhit.
    + lia.
    + eauto.
Qed.

Lemma created_session_lifetime_witness :
  let s := UserSession.mk "s9" "u1" "tok9" "admin" ["read"] 5000 (5001 + session_ttl)
             (Metadata.mk "1.1.1.1" "agent" 5002 None) in
  let w' := (create "s9" "tok9" 5000 5001 5002 (sample_request "1.1.1.1" "agent" None)
               "u1" "admin" ["read"] sample_world).2 in
  (io_ok sample_world ∧
   create "s9" "tok9" 5000 5001 5002 (sample_request "1.1.1.1" "agent" None)
          "u1" "admin" ["read"] sample_world = (Ok s, w')) ∧
  UserSession.expiresAt s = 5001 + 86400000 ∧
  (∀ later, later ≤ 5001 + 86400000 → validate later "s9" w' = (Ok (Some s), w')) ∧
  (∀ later, 5001 + 86400000 < later →
     ∃ w'', validate later "s9" w' = (Ok None, w'') ∧ absent "s9" w'').
Proof.
  intros s w'.
  assert (H1 : io_ok sample_world) by (unfold io_ok; simpl; repeat constructor).
  assert (H2 : create "s9" "tok9" 5000 5001 5002 (sample_request "1.1.1.1" "agent" None)
                 "u1" "admin" ["read"] sample_world = (Ok s, w'))
    by (vm_compute; reflexivity).
  split; [auto|].
  exact (created_session_lifetime "s9" "tok9" 5000 5001 5002
           (sample_request "1.1.1.1" "agent" None)
           "u1" "admin" ["read"] sample_world s w' H1 H2).
Defined.

Lemma validate_returns_live_inv now sessionId w s w' :
  validate now sessionId w = (Ok (Some s), w') → now ≤ UserSession.expiresAt s.
Proof.
  unfold_store. destruct w as [c d rc rd al fs tr]. simpl.
  destruct (c !! sessionId) as [s0|]; simpl.
  - case_bool_decide; simpl; [case_fault; discriminate|].
    intros [= <- <-]. lia.
  - case_fault; try discriminate;
      (destruct (find_doc sessionId d) as [s0|]; simpl;
       [ case_bool_decide; simpl;
         [ try case_fault; discriminate | intros [= <- <-]; lia ]
       | try case_fault; discriminate ]).
Qed.

(** X3. validate never returns an expired or a foreign session: whenever it
    returns a session, that session is the one the stores resolve the id
    to, its expiry is not before the time of the call, it is the cache
    entry of the id afterwards, and the repository is untouched.  This holds
    whatever the repository answers or rejects. *)
Theorem validate_returns_live_session now sessionId w s w' :
  validate now sessionId w = (Ok (Some s), w') →
  resolve sessionId w = Some s ∧
  now ≤ UserSession.expiresAt s ∧
  cache w' !! sessionId = Some s ∧
  collection w' = collection w.
Proof.
  unfold resolve. unfold_store.
  destruct w as [c d rc rd al fs tr]. simpl.
  destruct (c !! sessionId) as [s0|] eqn:Hc; simpl.
  - case_bool_decide as Hexp; simpl.
    + case_fault; discriminate.
    + intros [= <- <-]. simpl. repeat split; [lia | done].
  - case_fault; try discriminate;
      (destruct (find_doc sessionId d) as [s0|] eqn:Hd; simpl;
       [ case_bool_decide as Hexp; simpl;
         [ try case_fault; discriminate
         | intros [= <- <-]; simpl; repeat split;
           [lia | apply lookup_insert_eq] ]
       | try case_fault; discriminate ]).
Qed.

Lemma validate_returns_live_session_witness :
  let s := sample_session "s1" "admin" ["read"] 0 1000 in
  validate 500 "s1" (world_of false [s] [false]) = (Ok (Some s), (validate 500 "s1" (world_of false [s] [false])).2) ∧
  resolve "s1" (world_of false [s] [false]) = Some s ∧
  500 ≤ UserSession.expiresAt s ∧
  cache (validate 500 "s1" (world_of false [s] [false])).2 !! "s1" = Some s ∧
  collection (validate 500 "s1" (world_of false [s] [false])).2
    = collection (world_of false [s] [false]).
Proof.
  intros s.
  assert (H : validate 500 "s1" (world_of false [s] [false])
              = (Ok (Some s), (validate 500 "s1" (world_of false [s] [false])).2))
    by (vm_compute; reflexivity).
  split; [exact H|].
  exact (validate_returns_live_session 500 "s1" (world_of false [s] [false]) s _ H).
Defined.

(** X4. A cached session that has not expired is served from memory: the
    call returns it and leaves the whole state, the I/O trace included, as
    it was, whatever the repository holds and however its next calls would
    end; so does any sequence of calls at times up to the expiry. *)
Theorem validate_cache_hit sessionId s w nows :
  cache w !! sessionId = Some s →
  Forall (λ now, now ≤ UserSession.expiresAt s) nows →
  validate_each sessionId nows w = (replicate (length nows) (Ok (Some s)), w).
Proof.
  intros Hc Hall. induction Hall as [|now nows Hle _ IH]; simpl; [done|].
  rewrite (validate_cached now sessionId s w Hc Hle). by rewrite IH.
Qed.

Lemma validate_cache_hit_witness :
  let s := sample_session "s1" "admin" ["read"] 0 1000 in
  (cache (world_of true [s] [true]) !! "s1" = Some s ∧
   Forall (λ now, now ≤ UserSession.expiresAt s) [10; 999; 1000]) ∧
  validate_each "s1" [10; 999; 1000] (world_of true [s] [true])
    = (replicate (length [10; 999; 1000]) (Ok (Some s)), world_of true [s] [true]).
Proof.
  intros s.
  assert (H1 : cache (world_of true [s] [true]) !! "s1" = Some s)
    by (vm_compute; reflexivity).
  assert (H2 : Forall (λ now, now ≤ UserSession.expiresAt s) [10; 999; 1000])
    by (repeat constructor; simpl; lia).
  split; [auto|].
  exact (validate_cache_hit "s1" s (world_of true [s] [true]) [10; 999; 1000] H1 H2).
Defined.

(** X5. Read-through: for an id that is not cached and whose stored session
    has not expired, a validate whose read is accepted returns the stored
    session after exactly one repository get and caches it under the id;
    every later validate up to the expiry is answered from the cache, with
    no further repository get. *)
Theorem validate_read_through now sessionId s w :
  io_ok w →
  cache w !! sessionId = None →
  find_doc sessionId (collection w) = Some s →
  now ≤ UserSession.expiresAt s →
  ∃ w', validate now sessionId w = (Ok (Some s), w') ∧
        cache w' = <[sessionId := s]> (cache w) ∧
        collection w' = collection w ∧
        repository_gets sessionId w' = S (repository_gets sessionId w) ∧
        ∀ later, later ≤ UserSession.expiresAt s →
                 validate later sessionId w' = (Ok (Some s), w').
Proof.
  intros Hok Hc Hd Hle.
  exists (set_cache (<[sessionId := s]>)
            (set_faults (tail (faults w)) (trace (EvFindOne sessionId) w))).
  split.
  { unfold validate, findOne, await_io, issue, bind, gets, modify, ret.
    rewrite Hc. simpl. rewrite settle_ok by exact Hok. simpl. rewrite Hd.
    by rewrite bool_decide_eq_false_2 by lia. }
  simpl. split; [done|]. split; [done|]. split.
  - unfold repository_gets. simpl. by rewrite filter_cons_True.
  - intros later Hlater. apply validate_cached; [|done].
    simpl. apply lookup_insert_eq.
Qed.

Lemma validate_read_through_witness :
  let s := sample_session "s1" "admin" ["read"] 0 1000 in
  let w := world_of false [s] [false] in
  (io_ok w ∧ cache w !! "s1" = None ∧ find_doc "s1" (collection w) = Some s ∧
   500 ≤ UserSession.expiresAt s) ∧
  ∃ w', validate 500 "s1" w = (Ok (Some s), w') ∧
        cache w' = <["s1" := s]> (cache w) ∧
        collection w' = collection w ∧
        repository_gets "s1" w' = S (repository_gets "s1" w) ∧
        ∀ later, later ≤ UserSession.expiresAt s →
                 validate later "s1" w' = (Ok (Some s), w').
Proof.
  intros s w.
  assert (H1 : io_ok w) by (unfold io_ok; simpl; repeat constructor).
  assert (H2 : cache w !! "s1" = None) by reflexivity.
  assert (H3 : find_doc "s1" (collection w) = Some s) by (vm_compute; reflexivity).
  assert (H4 : 500 ≤ UserSession.expiresAt s) by (simpl; lia).
  split; [auto|].
  exact (validate_read_through 500 "s1" s w H1 H2 H3 H4).
Defined.

(** X6. Fail closed on a rejected read: for an id that is not cached, when
    the repository rejects the get, validate throws RepositoryError, returns
    no session, and leaves the cache and the repository as they were. *)
Theorem validate_read_rejected now sessionId w fs :
  cache w !! sessionId = None →
  faults w = true :: fs →
  ∃ w', validate now sessionId w = (Throw RepositoryError, w') ∧
        cache w' = cache w ∧ collection w' = collection w ∧
        ioTrace w' = EvFindOne sessionId :: ioTrace w.
Proof.
  intros Hc Hf.
  unfold validate, findOne, await_io, issue, bind, gets, modify, ret.
  rewrite Hc. simpl.
  erewrite settle_rejected by (simpl; exact Hf).
  eexists. by split.
Qed.

Lemma validate_read_rejected_witness :
  let w := world_of false [sample_session "s1" "admin" ["read"] 0 1000] [true] in
  (cache w !! "s1" = None ∧ faults w = true :: []) ∧
  ∃ w', validate 500 "s1" w = (Throw RepositoryError, w') ∧
        cache w' = cache w ∧ collection w' = collection w ∧
        ioTrace w' = EvFindOne "s1" :: ioTrace w.
Proof.
  intros w. split; [split; reflexivity|].
  exact (validate_read_rejected 500 "s1" w [] eq_refl eq_refl).
Defined.

(** X7. validate of one id leaves the other sessions alone: whatever its
    outcome, the cache entries of the other ids and the stored documents of
    the other ids are as before, and so are the role cache and the audit
    log. *)
Theorem validate_other_sessions now sessionId w r w' :
  validate now sessionId w = (r, w') →
  (∀ other, other ≠ sessionId → cache w' !! other = cache w !! other) ∧
  (∀ t, UserSession.id t ≠ sessionId → t ∈ collection w' ↔ t ∈ collection w) ∧
  roleCache w' = roleCache w ∧ auditLog w' = auditLog w.
Proof.
  assert (Hdel : ∀ (c : gmap string UserSession.t) other,
             other ≠ sessionId → delete sessionId c !! other = c !! other)
    by (intros; by apply lookup_delete_ne).
  assert (Hins : ∀ (c : gmap string UserSession.t) x other,
             other ≠ sessionId → <[sessionId := x]> c !! other = c !! other)
    by (intros; by apply lookup_insert_ne).
  assert (Hfil : ∀ (d : list UserSession.t) t, UserSession.id t ≠ sessionId →
             t ∈ filter (λ s, UserSession.id s ≠ sessionId) d ↔ t ∈ d)
    by (intros d t Ht; rewrite list_elem_of_filter; tauto).
  unfold_store. destruct w as [c d rc rd al fs tr]. simpl.
  destruct (c !! sessionId) as [s0|] eqn:Hc; simpl.
  - case_bool_decide; simpl.
    + case_fault; intros [= <- <-]; simpl;
        repeat split; intros; auto; by apply Hfil.
    + intros [= <- <-]. done.
  - case_fault; try (intros [= <- <-]; done);
      (destruct (find_doc sessionId d) as [s0|]; simpl;
       [ case_bool_decide; simpl;
         [ try case_fault; intros [= <- <-]; simpl;
           repeat split; intros; rewrite ?Hdel, ?Hins by done; auto; by apply Hfil
         | intros [= <- <-]; simpl; repeat split; intros; auto ]
       | try case_fault; intros [= <- <-]; simpl;
         repeat split; intros; auto; by apply Hfil ]).
Qed.

Lemma validate_other_sessions_witness :
  let r := (validate 2000 "s1" sweep_world).1 in
  let w' := (validate 2000 "s1" sweep_world).2 in
  validate 2000 "s1" sweep_world = (r, w') ∧
  (∀ other, other ≠ "s1" → cache w' !! other = cache sweep_world !! other) ∧
  (∀ t, UserSession.id t ≠ "s1" → t ∈ collection w' ↔ t ∈ collection sweep_world) ∧
  roleCache w' = roleCache sweep_world ∧ auditLog w' = auditLog sweep_world.
Proof.
  intros r w'.
  assert (H : validate 2000 "s1" sweep_world = (r, w')) by (vm_compute; reflexivity).
  split; [exact H|].
  exact (validate_other_sessions 2000 "s1" sweep_world r w' H).
Defined.

(** ** loadRoles and getRole *)

Lemma loaded_roles_lookup roleId docs (m : gmap string Role.t) :
  foldl (λ m r, <[Role.id r := r]> m) m docs !! roleId =
    match last_role roleId docs with
    | Some r => Some r
    | None => m !! roleId
    end.
Proof.
  unfold last_role. induction docs as [|r docs IH] using rev_ind; [done|].
  rewrite foldl_snoc, reverse_snoc. simpl.
  case_bool_decide as Hid.
  - rewrite <- Hid. apply lookup_insert_eq.
  - rewrite lookup_insert_ne by done. exact IH.
Qed.

Lemma getRole_fresh_eq now loaded roleId w :
  now - lastUpdated (roleCache w) ≤ 300000 →
  getRole now loaded roleId w = (Ok (roles (roleCache w) !! roleId), w).
Proof.
  intros Hfresh. unfold getRole, bind, gets, ret.
  rewrite bool_decide_eq_false_2; [done|].
  unfold refresh_interval. lia.
Qed.

(** X8. A reload replaces the role cache by the roles collection: when more
    than five minutes have passed since the last load and the read is
    accepted, getRole reads the collection once, stamps the cache with the
    load time, and answers with the last document of the collection that
    has the id (null when there is none, also for a role that was cached
    before); afterwards the cache holds exactly the collection's roles, and
    every call within five minutes of the load time is answered from it
    without another read. *)
Theorem getRole_reload now loaded roleId w :
  now - lastUpdated (roleCache w) > 300000 →
  io_ok w →
  ∃ w', getRole now loaded roleId w = (Ok (last_role roleId (rolesCollection w)), w') ∧
        lastUpdated (roleCache w') = loaded ∧
        (∀ other, roles (roleCache w') !! other = last_role other (rolesCollection w)) ∧
        ioTrace w' = EvFindRoles :: ioTrace w ∧
        ∀ later loaded' other, later - loaded ≤ 300000 →
          getRole later loaded' other w'
            = (Ok (last_role other (rolesCollection w)), w').
Proof.
  intros Hstale Hok.
  assert (Hlookup : ∀ other,
             foldl (λ m r, <[Role.id r := r]> m) (∅ : gmap string Role.t)
                   (rolesCollection w) !! other
             = last_role other (rolesCollection w)).
  { intros other. rewrite loaded_roles_lookup.
    destruct (last_role other (rolesCollection w)); [done | apply lookup_empty]. }
  eexists. split.
  { unfold getRole, loadRoles, findRoles, await_io, issue, bind, gets, modify, ret.
    simpl. rewrite bool_decide_eq_true_2 by (unfold refresh_interval; lia). simpl.
    rewrite settle_ok by exact Hok. simpl. rewrite Hlookup. reflexivity. }
  simpl. split; [done|]. split; [exact Hlookup|]. split; [done|].
  intros later loaded' other Hle.
  rewrite getRole_fresh_eq by (simpl; lia).
  simpl. by rewrite Hlookup.
Qed.

Lemma getRole_reload_witness :
  let w := roles_world [viewer_role] 0 [Role.mk "admin" "Admin" ["read"; "write"]] [] [false] in
  (300001 - lastUpdated (roleCache w) > 300000 ∧ io_ok w) ∧
  ∃ w', getRole 300001 300002 "viewer" w
          = (Ok (last_role "viewer" (rolesCollection w)), w') ∧
        lastUpdated (roleCache w') = 300002 ∧
        (∀ other, roles (roleCache w') !! other = last_role other (rolesCollection w)) ∧
        ioTrace w' = EvFindRoles :: ioTrace w ∧
        ∀ later loaded' other, later - 300002 ≤ 300000 →
          getRole later loaded' other w'
            = (Ok (last_role other (rolesCollection w)), w').
Proof.
  intros w.
  assert (H1 : 300001 - lastUpdated (roleCache w) > 300000) by (vm_compute; reflexivity).
  assert (H2 : io_ok w) by (unfold io_ok; simpl; repeat constructor).
  split; [auto|].
  exact (getRole_reload 300001 300002 "viewer" w H1 H2).
Defined.

(** ** validatePermissions, further *)

Lemma validatePermissions_true_inv getCurrentSession now loaded userId required w w' :
  validatePermissions getCurrentSession now loaded userId required w = (Ok true, w') →
  ∃ s w1 r,
    getCurrentSession userId w = (Ok (Some s), w1) ∧
    getRole now loaded (UserSession.role s) w1 = (Ok (Some r), w') ∧
    forallb (λ permission, includes (Role.permissions r) permission) required = true.
Proof.
  unfold validatePermissions, bind at 1.
  destruct (getCurrentSession userId w) as [[[s|]|e] w1] eqn:Hs;
    [|unfold ret; congruence|congruence].
  unfold bind.
  destruct (getRole now loaded (UserSession.role s) w1) as [[[r|]|e] w2] eqn:Hr;
    [|unfold ret; congruence|congruence].
  unfold ret. intros [= Hall <-]. by exists s, w1, r.
Qed.

(** X9. Requiring less never turns an allowed check into a denied one:
    when the check passes for a list of required permissions, it passes,
    with the same resulting state, for every list whose permissions all
    occur in the first. *)
Theorem validatePermissions_weaken getCurrentSession now loaded userId required fewer w w' :
  validatePermissions getCurrentSession now loaded userId required w = (Ok true, w') →
  (∀ p, p ∈ fewer → p ∈ required) →
  validatePermissions getCurrentSession now loaded userId fewer w = (Ok true, w').
Proof.
  intros Hv Hsub.
  apply validatePermissions_true_inv in Hv as (s & w1 & r & Hs & Hr & Hall).
  rewrite (validatePermissions_resolved _ _ _ _ _ _ _ _ _ _ Hs Hr).
  pose proof (proj1 (every_includes _ _) Hall) as Hreq.
  assert (Hfewer : forallb (λ permission, includes (Role.permissions r) permission) fewer
                   = true) by (apply every_includes; auto).
  by rewrite Hfewer.
Qed.

Lemma validatePermissions_weaken_witness :
  (validatePermissions firstSessionOf 1000 1000 "u1" ["read"; "read"] perm_world
     = (Ok true, perm_world) ∧
   ∀ p, p ∈ ["read"] → p ∈ ["read"; "read"]) ∧
  validatePermissions firstSessionOf 1000 1000 "u1" ["read"] perm_world
    = (Ok true, perm_world).
Proof.
  assert (H1 : validatePermissions firstSessionOf 1000 1000 "u1" ["read"; "read"] perm_world
               = (Ok true, perm_world)) by (vm_compute; reflexivity).
  assert (H2 : ∀ p : string, p ∈ ["read"] → p ∈ ["read"; "read"]).
  { intros p Hp. apply list_elem_of_singleton in Hp as ->. left. }
  split; [auto|].
  exact (validatePermissions_weaken firstSessionOf 1000 1000 "u1" ["read"; "read"] ["read"]
           perm_world perm_world H1 H2).
Defined.

(** ** withRoles, further *)

(** X10. The guard lets a request proceed only when it is authorised and
    audited: whenever the handler returns next(), the request carries a
    session whose role is one of the allowed roles, exactly one entry of
    type "access" for that session, with allowed = true, was appended to the
    audit log, and the session stores are untouched. *)
Theorem withRoles_next_inv allowedRoles request w w' :
  withRoles allowedRoles request w = (Ok Next, w') →
  ∃ session,
    req_session request = Some session ∧
    UserSession.role session ∈ allowedRoles ∧
    auditLog w' = auditLog w ++ [AccessEntry (UserSession.userId session)
                                             (UserSession.role session)
                                             (req_url request) true] ∧
    cache w' = cache w ∧ collection w' = collection w.
Proof.
  unfold withRoles, auditLogger_log, await_io, issue, settle, bind, modify, ret.
  destruct (req_session request) as [session|]; [|discriminate].
  unfold includes. case_bool_decide as Hin; simpl; [|discriminate].
  destruct w as [c d rc rd al fs tr]. simpl.
  case_fault; intros [= <-]; exists session; done.
Qed.

Lemma withRoles_next_inv_witness :
  let s := sample_session "s1" "admin" ["read"] 0 1000 in
  let rq := sample_request "1.1.1.1" "agent" (Some s) in
  let w' := (withRoles ["admin"] rq sample_world).2 in
  withRoles ["admin"] rq sample_world = (Ok Next, w') ∧
  ∃ session,
    req_session rq = Some session ∧
    UserSession.role session ∈ ["admin"] ∧
    auditLog w' = auditLog sample_world ++ [AccessEntry (UserSession.userId session)
                                             (UserSession.role session)
                                             (req_url rq) true] ∧
    cache w' = cache sample_world ∧ collection w' = collection sample_world.
Proof.
  intros s rq w'.
  assert (H : withRoles ["admin"] rq sample_world = (Ok Next, w'))
    by (vm_compute; reflexivity).
  split; [exact H|].
  exact (withRoles_next_inv ["admin"] rq sample_world w' H).
Defined.

(** X11. When the audit logger rejects the entry, the guard throws and the
    request does not proceed, although the role is allowed; nothing is
    added to the audit log. *)
Theorem withRoles_audit_rejected allowedRoles request session w fs :
  req_session request = Some session →
  UserSession.role session ∈ allowedRoles →
  faults w = true :: fs →
  ∃ w', withRoles allowedRoles request w = (Throw AuditError, w') ∧
        auditLog w' = auditLog w ∧
        ioTrace w' = EvAuditLog :: ioTrace w.
Proof.
  intros Hs Hin Hf.
  unfold withRoles, auditLogger_log, await_io, issue, bind, modify, ret.
  rewrite Hs. unfold includes. rewrite bool_decide_eq_true_2 by done. simpl.
  erewrite settle_rejected by (simpl; exact Hf).
  eexists. by split.
Qed.

Lemma withRoles_audit_rejected_witness :
  let s := sample_session "s1" "admin" ["read"] 0 1000 in
  let rq := sample_request "1.1.1.1" "agent" (Some s) in
  let w := world_of true [s] [true] in
  (req_session rq = Some s ∧ UserSession.role s ∈ ["admin"] ∧ faults w = true :: []) ∧
  ∃ w', withRoles ["admin"] rq w = (Throw AuditError, w') ∧
        auditLog w' = auditLog w ∧
        ioTrace w' = EvAuditLog :: ioTrace w.
Proof.
  intros s rq w.
  assert (H : UserSession.role s ∈ ["admin"]) by (simpl; left).
  split; [repeat split; exact H|].
  exact (withRoles_audit_rejected ["admin"] rq s w [] eq_refl H eq_refl).
Defined.

(** ** cleanupSessions, further *)

Lemma cleanupOne_ok s w :
  io_ok w →
  ∃ w', cleanupOne s w = (Ok tt, w') ∧ io_ok w' ∧
        auditLog w' = auditLog w ++ [expired_entry s] ∧
        collection w' = filter (λ t, UserSession.id t ≠ UserSession.id s) (collection w) ∧
        cache w' = delete (UserSession.id s) (cache w).
Proof.
  intros Hok. unfold cleanupOne, bind.
  rewrite destroy_ok by exact Hok.
  pose proof (io_ok_tail w Hok) as Hok1.
  unfold auditLogger_log, await_io, issue, bind, modify. simpl.
  rewrite settle_ok by exact Hok1. simpl.
  eexists. split; [reflexivity|]. split; [|done].
  apply (io_ok_tail _ Hok1).
Qed.

Lemma forOf_cleanup_ok l :
  ∀ w, io_ok w →
  ∃ w', forOf l cleanupOne w = (Ok tt, w') ∧ io_ok w' ∧
        auditLog w' = auditLog w ++ (expired_entry <$> l) ∧
        (∀ t, t ∈ collection w' ↔
              t ∈ collection w ∧ UserSession.id t ∉ UserSession.id <$> l) ∧
        (∀ sessionId,
            cache w' !! sessionId =
              if bool_decide (sessionId ∈ UserSession.id <$> l) then None
              else cache w !! sessionId).
Proof.
  induction l as [|s l IH]; intros w Hok; simpl.
  - exists w. split; [done|]. split; [done|]. split; [by rewrite app_nil_r|].
    split.
    + intros t. split; [|tauto]. intros Ht. split; [done|]. apply not_elem_of_nil.
    + intros sessionId. done.
  - destruct (cleanupOne_ok s w Hok) as (w1 & H1 & Hok1 & Ha1 & Hd1 & Hc1).
    destruct (IH w1 Hok1) as (w' & H' & Hok' & Ha' & Hd' & Hc').
    exists w'. unfold bind. rewrite H1. split; [exact H'|]. split; [exact Hok'|].
    split; [|split].
    + rewrite Ha', Ha1, <- app_assoc. done.
    + intros t. rewrite Hd', Hd1, list_elem_of_filter, not_elem_of_cons. tauto.
    + intros sessionId. rewrite Hc', Hc1.
      destruct (decide (sessionId = UserSession.id s)) as [->|Hne];
        [rewrite lookup_delete_eq | rewrite lookup_delete_ne by done];
        repeat case_bool_decide; try done; exfalso;
        match goal with
        | H : ¬ _ ∈ _ :: _ |- _ => apply H, elem_of_cons; auto
        | H : _ ∈ _ :: _ |- _ => apply elem_of_cons in H as [?|?]; auto
        end.
Qed.

(** X12. A sweep in which no call is rejected processes every candidate:
    for the stored sessions with expiresAt < now, in repository order, the
    audit log gains exactly one session_expired entry each; afterwards the
    repository holds exactly the documents whose id is not a candidate's,
    the cache has no entry for a candidate's id and its other entries
    unchanged, and no stored session is expired at that time any more. *)
Theorem cleanup_sweeps_all now w :
  io_ok w →
  let expired := filter (λ s, UserSession.expiresAt s < now) (collection w) in
  ∃ w', cleanupSessions now w = (Ok tt, w') ∧
        auditLog w' = auditLog w ++ (expired_entry <$> expired) ∧
        (∀ t, t ∈ collection w' ↔
              t ∈ collection w ∧ UserSession.id t ∉ UserSession.id <$> expired) ∧
        (∀ sessionId,
            cache w' !! sessionId =
              if bool_decide (sessionId ∈ UserSession.id <$> expired) then None
              else cache w !! sessionId) ∧
        filter (λ s, UserSession.expiresAt s < now) (collection w') = [].
Proof.
  intros Hok expired.
  pose proof (io_ok_tail (trace EvFindExpired w) Hok) as Hok0.
  destruct (forOf_cleanup_ok expired _ Hok0) as (w' & Hrun & _ & Ha & Hd & Hc).
  exists w'. split.
  { unfold cleanupSessions, findExpired, await_io, issue, bind, gets, modify.
    simpl. rewrite settle_ok by exact Hok. simpl. exact Hrun. }
  split; [exact Ha|]. split; [exact Hd|]. split; [exact Hc|].
  apply elem_of_nil_inv. intros t Ht.
  apply list_elem_of_filter in Ht as [Hexp Ht].
  apply Hd in Ht as [Ht Hnot]. simpl in Ht.
  apply Hnot, list_elem_of_fmap. exists t. split; [done|].
  by apply list_elem_of_filter.
Qed.

Lemma cleanup_sweeps_all_witness :
  let w := world_of true [sample_session "s1" "admin" ["read"] 0 1000;
                          sample_session "s2" "admin" ["read"] 0 5000] [] in
  io_ok w ∧
  let expired := filter (λ s, UserSession.expiresAt s < 2000) (collection w) in
  ∃ w', cleanupSessions 2000 w = (Ok tt, w') ∧
        auditLog w' = auditLog w ++ (expired_entry <$> expired) ∧
        (∀ t, t ∈ collection w' ↔
              t ∈ collection w ∧ UserSession.id t ∉ UserSession.id <$> expired) ∧
        (∀ sessionId,
            cache w' !! sessionId =
              if bool_decide (sessionId ∈ UserSession.id <$> expired) then None
              else cache w !! sessionId) ∧
        filter (λ s, UserSession.expiresAt s < 2000) (collection w') = [].
Proof.
  intros w.
  assert (H : io_ok w) by (unfold io_ok; simpl; constructor).
  split; [exact H|].
  exact (cleanup_sweeps_all 2000 w H).
Defined.

(** X13. A sweep that finds nothing expired only runs its query: when no
    stored session has expiresAt < now (the boundary expiresAt = now is not
    swept), cleanupSessions deletes nothing and logs nothing, whether the
    query is accepted or rejected; the cache, the repository and the audit
    log are as before and the query is the only I/O. *)
Theorem cleanup_nothing_expired now w r w' :
  Forall (λ s, now ≤ UserSession.expiresAt s) (collection w) →
  cleanupSessions now w = (r, w') →
  cache w' = cache w ∧ collection w' = collection w ∧ auditLog w' = auditLog w ∧
  ioTrace w' = EvFindExpired :: ioTrace w.
Proof.
  intros Hall.
  assert (Hnil : filter (λ s, UserSession.expiresAt s < now) (collection w) = []).
  { apply elem_of_nil_inv. intros t Ht.
    apply list_elem_of_filter in Ht as [Hexp Ht].
    rewrite Forall_forall in Hall. specialize (Hall t Ht). simpl in Hall. lia. }
  unfold cleanupSessions, findExpired, await_io, issue, settle, bind, gets, modify.
  destruct w as [c d rc rd al fs tr]. simpl in *.
  case_fault; rewrite ?Hnil; simpl; unfold ret; intros [= <- <-]; done.
Qed.

Lemma cleanup_nothing_expired_witness :
  let r := (cleanupSessions 1000 sample_world).1 in
  let w' := (cleanupSessions 1000 sample_world).2 in
  (Forall (λ s, 1000 ≤ UserSession.expiresAt s) (collection sample_world) ∧
   cleanupSessions 1000 sample_world = (r, w')) ∧
  cache w' = cache sample_world ∧ collection w' = collection sample_world ∧
  auditLog w' = auditLog sample_world ∧
  ioTrace w' = EvFindExpired :: ioTrace sample_world.
Proof.
  intros r w'.
  assert (H1 : Forall (λ s, 1000 ≤ UserSession.expiresAt s) (collection sample_world))
    by (repeat constructor; simpl; lia).
  assert (H2 : cleanupSessions 1000 sample_world = (r, w')) by (vm_compute; reflexivity).
  split; [auto|].
  exact (cleanup_nothing_expired 1000 sample_world r w' H1 H2).
Defined.

(** ** sessionMiddleware *)

(** X14. The middleware never throws: whatever the cookie, the stores, the
    outcome of the repository calls and of updateLastActive, it returns a
    response (an error caught by its try/catch becomes the 500 response);
    and when the request has no session_token cookie, or an empty one, it
    answers 401 "Unauthorized" without reading or changing anything. *)
Theorem sessionMiddleware_never_throws generateDeviceId updateLastActive now now2
    sessionToken request w :
  (∃ answer w',
      sessionMiddleware generateDeviceId updateLastActive now now2 sessionToken request w
        = (Ok answer, w')) ∧
  (sessionToken = None ∨ sessionToken = Some "" →
   sessionMiddleware generateDeviceId updateLastActive now now2 sessionToken request w
     = (Ok (ErrorResponse "Unauthorized" 401, request), w)).
Proof.
  split.
  - unfold sessionMiddleware. destruct sessionToken as [tok|]; [|by eexists _, _].
    case_bool_decide; [by eexists _, _|].
    unfold try_catch at 1.
    match goal with |- context [match ?body w with _ => _ end] =>
      destruct (body w) as [[answer|e] w1] end; by eexists _, _.
  - by intros [->| ->].
Qed.

(** X15. The middleware lets a request through only for a validated and
    secure session: whenever it returns next(), the cookie value validated
    to a session that has not expired, validateSession answered true for
    that session, updateLastActive returned, and the session attached to
    the request is that session. *)
Theorem sessionMiddleware_next_inv generateDeviceId updateLastActive now now2
    sessionToken request w request' w' :
  sessionMiddleware generateDeviceId updateLastActive now now2 sessionToken request w
    = (Ok (Next, request'), w') →
  ∃ tok s w1 w2,
    sessionToken = Some tok ∧
    tok ≠ "" ∧
    validate now tok w = (Ok (Some s), w1) ∧
    now ≤ UserSession.expiresAt s ∧
    validateSession generateDeviceId now2 request (UserSession.id s) w1 = (Ok true, w2) ∧
    updateLastActive (UserSession.id s) w2 = (Ok tt, w') ∧
    request' = attach_session request s ∧
    req_session request' = Some s.
Proof.
  unfold sessionMiddleware. destruct sessionToken as [tok|]; [|discriminate].
  case_bool_decide as Htok; [discriminate|].
  unfold try_catch at 1. unfold bind at 1.
  destruct (validate now tok w) as [[[s|]|e] w1] eqn:Hv; try discriminate.
  unfold bind at 1.
  destruct (validateSession generateDeviceId now2 request (UserSession.id s) w1)
    as [[[]|e] w2] eqn:Hs; simpl; try discriminate.
  - unfold try_catch, bind, ret.
    destruct (updateLastActive (UserSession.id s) w2) as [[[]|e] w3] eqn:Hu;
      [|discriminate].
    intros [= <- <-].
    exists tok, s, w1, w2. repeat split; try done.
    by apply validate_returns_live_inv in Hv.
  - unfold bind, ret.
    destruct (destroy (UserSession.id s) w2) as [[[]|e] w3]; discriminate.
Qed.

Lemma sessionMiddleware_next_inv_witness :
  let s := sample_session "s1" "admin" ["read"] 0 1000 in
  let rq := sample_request "1.1.1.1" "agent" None in
  let out := sessionMiddleware deviceOfAgent (touchCached 500) 500 500 (Some "s1") rq
               sample_world in
  out = (Ok (Next, attach_session rq s), out.2) ∧
  ∃ tok s' w1 w2,
    Some "s1" = Some tok ∧
    tok ≠ "" ∧
    validate 500 tok sample_world = (Ok (Some s'), w1) ∧
    500 ≤ UserSession.expiresAt s' ∧
    validateSession deviceOfAgent 500 rq (UserSession.id s') w1 = (Ok true, w2) ∧
    touchCached 500 (UserSession.id s') w2 = (Ok tt, out.2) ∧
    attach_session rq s = attach_session rq s' ∧
    req_session (attach_session rq s) = Some s'.
Proof.
  intros s rq out.
  assert (H : out = (Ok (Next, attach_session rq s), out.2)) by (vm_compute; reflexivity).
  split; [exact H|].
  exact (sessionMiddleware_next_inv deviceOfAgent (touchCached 500) 500 500 (Some "s1") rq
           sample_world (attach_session rq s) out.2 H).
Defined.

Lemma sessionMiddleware_absent generateDeviceId updateLastActive now now2 tok request w :
  tok ≠ "" → io_ok w → absent tok w →
  ∃ w', sessionMiddleware generateDeviceId updateLastActive now now2 (Some tok) request w
          = (Ok (ErrorResponse "Invalid session" 401, request), w').
Proof.
  intros Htok Hok Habs.
  destruct (validate_of_absent now tok w Hok Habs) as (w' & Hv & _ & _).
  exists w'. unfold sessionMiddleware. rewrite bool_decide_eq_false_2 by exact Htok.
  unfold try_catch, bind at 1. by rewrite Hv.
Qed.

(** X16. The middleware looks the cookie value up as a session id: it hands
    the value of the session_token cookie to validate, which reads the
    cache and the repository by id.  So for a session just created with a
    non-empty token that differs from its id, where no session has the
    token as its id, a request presenting the session's token is answered
    401 "Invalid session". *)
Theorem sessionMiddleware_token_is_not_id generateDeviceId updateLastActive
    uuid tok created now0 active request0 userId role perms w s w' now now2 request :
  io_ok w →
  create uuid tok created now0 active request0 userId role perms w = (Ok s, w') →
  tok ≠ "" →
  tok ≠ uuid →
  absent tok w →
  ∃ w'', sessionMiddleware generateDeviceId updateLastActive now now2
           (Some (UserSession.token s)) request w'
         = (Ok (ErrorResponse "Invalid session" 401, request), w'').
Proof.
  intros Hok Hcreate Htok Hne [Hc Hd].
  destruct (create_ok_eq uuid tok created now0 active request0 userId role perms w Hok)
    as (w0 & Heq & Hok' & Hcache & Hcoll).
  rewrite Hcreate in Heq. injection Heq as -> <-. simpl.
  apply sessionMiddleware_absent; [exact Htok | exact Hok' |].
  split.
  - rewrite Hcache. by rewrite lookup_insert_ne.
  - rewrite Hcoll, find_doc_app, Hd. unfold find_doc, has_id. simpl.
    by rewrite bool_decide_eq_false_2.
Qed.

Lemma sessionMiddleware_token_is_not_id_witness :
  let rq := sample_request "1.1.1.1" "agent" None in
  let s := (UserSession.mk "s9" "u1" "tok9" "admin" ["read"] 5000 (5001 + session_ttl)
              (Metadata.mk "1.1.1.1" "agent" 5002 None)) in
  let w' := (create "s9" "tok9" 5000 5001 5002 rq "u1" "admin" ["read"] sample_world).2 in
  (io_ok sample_world ∧
   create "s9" "tok9" 5000 5001 5002 rq "u1" "admin" ["read"] sample_world = (Ok s, w') ∧
   "tok9" ≠ "" ∧ "tok9" ≠ "s9" ∧ absent "tok9" sample_world) ∧
  ∃ w'', sessionMiddleware deviceOfAgent (touchCached 6000) 6000 6000
           (Some (UserSession.token s)) rq w'
         = (Ok (ErrorResponse "Invalid session" 401, rq), w'').
Proof.
  intros rq s w'.
  assert (H1 : io_ok sample_world) by (unfold io_ok; simpl; repeat constructor).
  assert (H2 : create "s9" "tok9" 5000 5001 5002 rq "u1" "admin" ["read"] sample_world
               = (Ok s, w'))
    by (vm_compute; reflexivity).
  assert (H3 : "tok9" ≠ "") by discriminate.
  assert (H4 : "tok9" ≠ "s9") by discriminate.
  assert (H5 : absent "tok9" sample_world) by (split; vm_compute; reflexivity).
  split; [auto|].
  exact (sessionMiddleware_token_is_not_id deviceOfAgent (touchCached 6000)
           "s9" "tok9" 5000 5001 5002 rq "u1" "admin" ["read"] sample_world s w'
           6000 6000 rq H1 H2 H3 H4 H5).
Defined.

(** X17. A repository failure is answered 500, not let through: when the
    cookie value is not empty and not cached and the repository rejects the
    read, the middleware answers "Internal server error" with status 500,
    attaches no session to the request and leaves the stores as they
    were. *)
Theorem sessionMiddleware_read_rejected generateDeviceId updateLastActive now now2
    tok request w fs :
  tok ≠ "" →
  cache w !! tok = None →
  faults w = true :: fs →
  ∃ w', sessionMiddleware generateDeviceId updateLastActive now now2 (Some tok) request w
          = (Ok (ErrorResponse "Internal server error" 500, request), w') ∧
        cache w' = cache w ∧ collection w' = collection w.
Proof.
  intros Htok Hc Hf.
  unfold sessionMiddleware. rewrite bool_decide_eq_false_2 by exact Htok.
  unfold try_catch, validate, findOne, await_io, issue, bind, gets, modify, ret.
  rewrite Hc. simpl.
  erewrite settle_rejected by (simpl; exact Hf).
  eexists. by split.
Qed.

Lemma sessionMiddleware_read_rejected_witness :
  let w := world_of false [sample_session "s1" "admin" ["read"] 0 1000] [true] in
  let rq := sample_request "1.1.1.1" "agent" None in
  ("s1" ≠ "" ∧ cache w !! "s1" = None ∧ faults w = true :: []) ∧
  ∃ w', sessionMiddleware deviceOfAgent (touchCached 500) 500 500 (Some "s1") rq w
          = (Ok (ErrorResponse "Internal server error" 500, rq), w') ∧
        cache w' = cache w ∧ collection w' = collection w.
Proof.
  intros w rq.
  assert (H : "s1" ≠ "") by discriminate.
  split; [repeat split; exact H|].
  exact (sessionMiddleware_read_rejected deviceOfAgent (touchCached 500) 500 500
           "s1" rq w [] H eq_refl eq_refl).
Defined.

(** X18. A failed security check ends the session: when the cookie value is
    not empty and validates to a session, and validateSession answers false
    for it, the middleware (the delete being accepted) answers 401
    "Security check failed", attaches nothing to the request, and the
    session is gone from the cache and the repository, so that every later
    validate of its id returns NotFound. *)
Theorem sessionMiddleware_security_failure generateDeviceId updateLastActive now now2
    tok request w s w1 w2 :
  tok ≠ "" →
  validate now tok w = (Ok (Some s), w1) →
  validateSession generateDeviceId now2 request (UserSession.id s) w1 = (Ok false, w2) →
  io_ok w2 →
  ∃ w', sessionMiddleware generateDeviceId updateLastActive now now2 (Some tok) request w
          = (Ok (ErrorResponse "Security check failed" 401, request), w') ∧
        absent (UserSession.id s) w' ∧
        ∀ later, ∃ w'', validate later (UserSession.id s) w' = (Ok None, w'').
Proof.
  intros Htok Hv Hs Hok.
  pose proof (destroy_ok (UserSession.id s) w2 Hok) as Hd.
  set (w' := set_collection _ _) in Hd.
  assert (Habs : absent (UserSession.id s) w') by exact (destroy_absent _ _ _ _ Hd).
  assert (Hok' : io_ok w') by (apply io_ok_tail in Hok; exact Hok).
  exists w'. split; [|split; [exact Habs|]].
  - unfold sessionMiddleware. rewrite bool_decide_eq_false_2 by exact Htok.
    unfold try_catch, bind at 1. rewrite Hv.
    unfold bind at 1. rewrite Hs. simpl. unfold bind. by rewrite Hd.
  - intros later.
    destruct (validate_of_absent later _ w' Hok' Habs) as (w'' & Hv' & _).
    eauto.
Qed.

Lemma sessionMiddleware_security_failure_witness :
  let s := sample_session "s1" "admin" ["read"] 0 1000 in
  let rq := sample_request "2.2.2.2" "agent" None in
  ("s1" ≠ "" ∧
   validate 500 "s1" sample_world = (Ok (Some s), sample_world) ∧
   validateSession deviceOfAgent 500 rq (UserSession.id s) sample_world
     = (Ok false, sample_world) ∧
   io_ok sample_world) ∧
  ∃ w', sessionMiddleware deviceOfAgent (touchCached 500) 500 500 (Some "s1") rq sample_world
          = (Ok (ErrorResponse "Security check failed" 401, rq), w') ∧
        absent (UserSession.id s) w' ∧
        ∀ later, ∃ w'', validate later (UserSession.id s) w' = (Ok None, w'').
Proof.
  intros s rq.
  assert (H0 : "s1" ≠ "") by discriminate.
  assert (H1 : validate 500 "s1" sample_world = (Ok (Some s), sample_world))
    by (vm_compute; reflexivity).
  assert (H2 : validateSession deviceOfAgent 500 rq (UserSession.id s) sample_world
               = (Ok false, sample_world)) by (vm_compute; reflexivity).
  assert (H3 : io_ok sample_world) by (unfold io_ok; simpl; repeat constructor).
  split; [auto|].
  exact (sessionMiddleware_security_failure deviceOfAgent (touchCached 500) 500 500
           "s1" rq sample_world s sample_world sample_world H0 H1 H2 H3).
Defined.

(** ** createSecureSession *)

(** X19. The cookie of a secure session: when generateSecureToken and
    generateDeviceId return and the durable write is accepted,
    createSecureSession returns the session that create made for the user
    and sets the cookie session_token to that session's token, which is the
    store's generated token and not the result of generateSecureToken; the
    cookie is httpOnly, sameSite strict, secure exactly in production, and
    its maxAge is, in seconds, the 24 hours that create added to its clock
    reading for expiresAt.  When generateSecureToken or generateDeviceId
    throws, createSecureSession throws the same error and create is not
    called. *)
Theorem createSecureSession_cookie generateSecureToken generateDeviceId production
    uuid tok created now active ambient user request w :
  (∀ t w1 d w2,
      generateSecureToken user w = (Ok t, w1) →
      generateDeviceId request w1 = (Ok d, w2) →
      io_ok w2 →
      ∃ s cookie w',
        createSecureSession generateSecureToken generateDeviceId production
            uuid tok created now active ambient user request w
          = (Ok (s, cookie), w') ∧
        create uuid tok created now active ambient
               (user_id user) (user_role user) (user_permissions user) w2
          = (Ok s, w') ∧
        cookie_name cookie = "session_token" ∧
        cookie_value cookie = UserSession.token s ∧
        UserSession.token s = tok ∧
        httpOnly cookie = true ∧ sameSite cookie = "strict" ∧
        secure cookie = production ∧ path cookie = "/" ∧
        maxAge cookie * 1000 = UserSession.expiresAt s - now) ∧
  (∀ e w1,
      generateSecureToken user w = (Throw e, w1) →
      createSecureSession generateSecureToken generateDeviceId production
          uuid tok created now active ambient user request w
        = (Throw e, w1)) ∧
  (∀ t w1 e w2,
      generateSecureToken user w = (Ok t, w1) →
      generateDeviceId request w1 = (Throw e, w2) →
      createSecureSession generateSecureToken generateDeviceId production
          uuid tok created now active ambient user request w
        = (Throw e, w2)).
Proof.
  split; [|split].
  - intros t w1 d w2 Ht Hd Hok.
    destruct (create_ok_eq uuid tok created now active ambient (user_id user)
                (user_role user) (user_permissions user) w2 Hok) as (w' & Hc & _).
    eexists _, _, w'. split.
    { unfold createSecureSession, bind at 1. rewrite Ht.
      unfold bind at 1. rewrite Hd. unfold bind. rewrite Hc. reflexivity. }
    split; [exact Hc|]. simpl. repeat split. unfold session_ttl. lia.
  - intros e w1 Ht. unfold createSecureSession, bind at 1. by rewrite Ht.
  - intros t w1 e w2 Ht Hd. unfold createSecureSession, bind at 1. rewrite Ht.
    unfold bind at 1. by rewrite Hd.
Qed.

Lemma createSecureSession_cookie_witness :
  let u := mkUser "u1" "admin" ["read"] in
  let rq := sample_request "1.1.1.1" "agent" None in
  (secureTokenOf u sample_world = (Ok "secure-u1", sample_world) ∧
   deviceOfAgent rq sample_world = (Ok "dev1", sample_world) ∧
   io_ok sample_world) ∧
  ∃ s cookie w',
    createSecureSession secureTokenOf deviceOfAgent true "s9" "tok9" 5000 5001 5002 rq u rq
                        sample_world
      = (Ok (s, cookie), w') ∧
    create "s9" "tok9" 5000 5001 5002 rq (user_id u) (user_role u) (user_permissions u)
           sample_world
      = (Ok s, w') ∧
    cookie_name cookie = "session_token" ∧
    cookie_value cookie = UserSession.token s ∧
    UserSession.token s = "tok9" ∧
    httpOnly cookie = true ∧ sameSite cookie = "strict" ∧
    secure cookie = true ∧ path cookie = "/" ∧
    maxAge cookie * 1000 = UserSession.expiresAt s - 5001.
Proof.
  intros u rq.
  assert (H1 : secureTokenOf u sample_world = (Ok "secure-u1", sample_world))
    by reflexivity.
  assert (H2 : deviceOfAgent rq sample_world = (Ok "dev1", sample_world))
    by (vm_compute; reflexivity).
  assert (H3 : io_ok sample_world) by (unfold io_ok; simpl; repeat constructor).
  split; [auto|].
  exact (proj1 (createSecureSession_cookie secureTokenOf deviceOfAgent true
                  "s9" "tok9" 5000 5001 5002 rq u rq sample_world)
           "secure-u1" sample_world "dev1" sample_world H1 H2 H3).
Defined.

(** ** detectAnomalies *)

Lemma filter_nonempty_iff {A} (P : A → Prop) `{∀ x, Decision (P x)} (l : list A) :
  (0 < length (filter P l))%nat ↔ ∃ x, x ∈ l ∧ P x.
Proof.
  split.
  - destruct (filter P l) as [|a k] eqn:Hf; simpl; [lia|].
    intros _. exists a.
    assert (Ha : a ∈ filter P l) by (rewrite Hf; left).
    apply list_elem_of_filter in Ha. tauto.
  - intros (a & Ha & HPa).
    assert (Hin : a ∈ filter P l) by (by apply list_elem_of_filter).
    destruct (filter P l); [by apply elem_of_nil in Hin | simpl; lia].
Qed.

(** Membership in a list of at most two alerts. *)
Ltac alert_cases H :=
  repeat (apply elem_of_cons in H as [H|H];
          [try discriminate; try (injection H as -> ->)|]);
  try (by apply elem_of_nil in H).

(** X20. The concurrent-sessions alert: for the recent activity that
    getRecentActivity returned, detectAnomalies hands the alert to
    handleSecurityAlert exactly when some activity is strictly later than
    the creation of the session and comes from another IP than the
    session's; activity at the creation instant or earlier, or from the
    session's IP, never raises it.  The alert names the session's user and
    lists exactly those activities, and it is the first alert handed
    over. *)
Theorem detectAnomalies_concurrent {D}
    (getRecentActivity : string → Outcome (list Activity.t))
    (analyzeLocationChanges : list Activity.t → LocationChanges D)
    (handleSecurityAlert : SecurityAlert D → Outcome unit)
    recentActivity session :
  getRecentActivity (UserSession.userId session) = Ok recentActivity →
  let foreign activity :=
    Activity.timestamp activity > UserSession.createdAt session ∧
    Activity.ip activity ≠ Metadata.ip (UserSession.metadata session) in
  let handed :=
    (detectAnomalies getRecentActivity analyzeLocationChanges handleSecurityAlert
       session).1 in
  ((∃ u l, ConcurrentSessions u l ∈ handed) ↔
   ∃ activity, activity ∈ recentActivity ∧ foreign activity) ∧
  (∀ u l, ConcurrentSessions u l ∈ handed →
          u = UserSession.userId session ∧
          l = filter foreign recentActivity ∧
          head handed = Some (ConcurrentSessions u l)).
Proof.
  intros Hget foreign handed. subst handed.
  unfold detectAnomalies. rewrite Hget. fold foreign.
  rewrite <- (filter_nonempty_iff foreign).
  case_bool_decide as Hpos.
  - destruct (handleSecurityAlert _) as [[]|e]; simpl;
      [destruct (suspicious (analyzeLocationChanges recentActivity)); simpl|];
      (split; [split; [done | intros _; eexists _, _; left]|]);
      intros u l Hin; alert_cases Hin; done.
  - simpl. destruct (suspicious (analyzeLocationChanges recentActivity)); simpl;
      (split; [split; [intros (u & l & Hin); alert_cases Hin | done]|]);
      intros u l Hin; alert_cases Hin.
Qed.

Lemma detectAnomalies_concurrent_witness :
  let s := sample_session "s1" "admin" ["read"] 100 1000 in
  let recent := [Activity.mk 100 "2.2.2.2"; Activity.mk 200 "1.1.1.1";
                 Activity.mk 300 "3.3.3.3"] in
  let foreign activity :=
    Activity.timestamp activity > UserSession.createdAt s ∧
    Activity.ip activity ≠ Metadata.ip (UserSession.metadata s) in
  let handed :=
    (detectAnomalies (λ _, Ok recent) (λ _, mkLocationChanges false tt)
       (λ _, Ok tt) s).1 in
  ((∃ u l, ConcurrentSessions u l ∈ handed) ↔
   ∃ activity, activity ∈ recent ∧ foreign activity) ∧
  (∀ u l, ConcurrentSessions u l ∈ handed →
          u = UserSession.userId s ∧
          l = filter foreign recent ∧
          head handed = Some (ConcurrentSessions u l)).
Proof.
  intros s recent.
  exact (detectAnomalies_concurrent (λ _, Ok recent) (λ _, mkLocationChanges false tt)
           (λ _, Ok tt) recent s eq_refl).
Defined.

(** X21. The location alert: for the recent activity that getRecentActivity
    returned, detectAnomalies hands the alert to handleSecurityAlert exactly
    when analyzeLocationChanges, applied to the whole recent activity
    (activity before the creation of the session and from the session's own
    IP included), reports suspicious, and the concurrent-sessions alert, if
    there was one, was handled without an error.  The alert carries the
    details of that analysis and the session's user and is the last one
    handed over, its handling being the outcome of the call.  When the
    handling of the concurrent-sessions alert throws, the call throws that
    error and hands over nothing else.  At most two alerts are handed
    over. *)
Theorem detectAnomalies_location {D}
    (getRecentActivity : string → Outcome (list Activity.t))
    (analyzeLocationChanges : list Activity.t → LocationChanges D)
    (handleSecurityAlert : SecurityAlert D → Outcome unit)
    recentActivity session :
  getRecentActivity (UserSession.userId session) = Ok recentActivity →
  let foreign activity :=
    Activity.timestamp activity > UserSession.createdAt session ∧
    Activity.ip activity ≠ Metadata.ip (UserSession.metadata session) in
  let concurrentAlert :=
    ConcurrentSessions (UserSession.userId session) (filter foreign recentActivity) in
  let out :=
    detectAnomalies getRecentActivity analyzeLocationChanges handleSecurityAlert session in
  (∀ u d, SuspiciousLocationChanges u d ∈ out.1 ↔
          suspicious (analyzeLocationChanges recentActivity) = true ∧
          (filter foreign recentActivity = [] ∨
           handleSecurityAlert concurrentAlert = Ok tt) ∧
          u = UserSession.userId session ∧
          d = details (analyzeLocationChanges recentActivity)) ∧
  (∀ u d, SuspiciousLocationChanges u d ∈ out.1 →
          last out.1 = Some (SuspiciousLocationChanges u d) ∧
          out.2 = handleSecurityAlert (SuspiciousLocationChanges u d)) ∧
  (∀ e, filter foreign recentActivity ≠ [] →
        handleSecurityAlert concurrentAlert = Throw e →
        out = ([concurrentAlert], Throw e)) ∧
  (length out.1 ≤ 2)%nat.
Proof.
  intros Hget foreign concurrentAlert out. subst out concurrentAlert.
  unfold detectAnomalies. rewrite Hget. fold foreign.
  assert (Hnil : (0 < length (filter foreign recentActivity))%nat ↔
                 filter foreign recentActivity ≠ []).
  { destruct (filter foreign recentActivity); simpl; split; try done; lia. }
  case_bool_decide as Hpos.
  - apply Hnil in Hpos.
    destruct (handleSecurityAlert
                (ConcurrentSessions (UserSession.userId session)
                   (filter foreign recentActivity))) as [[]|e] eqn:Hh; simpl.
    + destruct (suspicious (analyzeLocationChanges recentActivity)); simpl;
        (split; [|split; [|split; [intros; discriminate | lia]]]).
      * intros u d. split.
        -- intros Hin. alert_cases Hin. repeat split. by right.
        -- intros (_ & _ & -> & ->). right. left.
      * intros u d Hin. alert_cases Hin. done.
      * intros u d. split.
        -- intros Hin. alert_cases Hin.
        -- intros (? & _). discriminate.
      * intros u d Hin. alert_cases Hin.
    + split; [|split; [|split; [|lia]]].
      * intros u d. split.
        -- intros Hin. alert_cases Hin.
        -- intros (_ & [Hempty|Hok] & _); [done | discriminate].
      * intros u d Hin. alert_cases Hin.
      * intros e' _ [= <-]. done.
  - assert (Hempty : filter foreign recentActivity = []).
    { destruct (filter foreign recentActivity); [done|]. exfalso. apply Hpos. simpl. lia. }
    simpl. destruct (suspicious (analyzeLocationChanges recentActivity)); simpl;
      (split; [|split; [|split; [intros; done | lia]]]).
    + intros u d. split.
      * intros Hin. alert_cases Hin. repeat split. by left.
      * intros (_ & _ & -> & ->). left.
    + intros u d Hin. alert_cases Hin. done.
    + intros u d. split.
      * intros Hin. alert_cases Hin.
      * intros (? & _). discriminate.
    + intros u d Hin. alert_cases Hin.
Qed.

Lemma detectAnomalies_location_witness :
  let s := sample_session "s1" "admin" ["read"] 100 1000 in
  let recent := [Activity.mk 300 "3.3.3.3"] in
  let reject (alert : SecurityAlert unit) : Outcome unit :=
    match alert with
    | ConcurrentSessions _ _ => Throw AuditError
    | SuspiciousLocationChanges _ _ => Ok tt
    end in
  let foreign activity :=
    Activity.timestamp activity > UserSession.createdAt s ∧
    Activity.ip activity ≠ Metadata.ip (UserSession.metadata s) in
  let concurrentAlert : SecurityAlert unit :=
    ConcurrentSessions (UserSession.userId s) (filter foreign recent) in
  let out := detectAnomalies (λ _, Ok recent) (λ _, mkLocationChanges true tt) reject s in
  (∀ u d, SuspiciousLocationChanges u d ∈ out.1 ↔
          suspicious (mkLocationChanges true tt) = true ∧
          (filter foreign recent = [] ∨ reject concurrentAlert = Ok tt) ∧
          u = UserSession.userId s ∧
          d = details (mkLocationChanges true tt)) ∧
  (∀ u d, SuspiciousLocationChanges u d ∈ out.1 →
          last out.1 = Some (SuspiciousLocationChanges u d) ∧
          out.2 = reject (SuspiciousLocationChanges u d)) ∧
  (∀ e, filter foreign recent ≠ [] →
        reject concurrentAlert = Throw e →
        out = ([concurrentAlert], Throw e)) ∧
  (length out.1 ≤ 2)%nat.
Proof.
  intros s recent reject.
  exact (detectAnomalies_location (λ _, Ok recent) (λ _, mkLocationChanges true tt)
           reject recent s eq_refl).
Defined.

(** ** The middleware followed by the guard *)

(** X22. A request that the middleware let through is never answered 401 by
    the guard: the session the middleware attached, which had not expired
    when it was validated, is the one the guard reads; the guard answers
    403 when the role of that session is not among the allowed roles, and
    when it is (the audit logger accepting the entry) it logs the access of
    that session's user and lets the request proceed. *)
Theorem guard_after_middleware generateDeviceId updateLastActive now now2 sessionToken
    request w request' w' allowedRoles :
  sessionMiddleware generateDeviceId updateLastActive now now2 sessionToken request w
    = (Ok (Next, request'), w') →
  ∃ s, req_session request' = Some s ∧
       now ≤ UserSession.expiresAt s ∧
       (∀ r w'', withRoles allowedRoles request' w' = (r, w'') →
                 r ≠ Ok (ErrorResponse "Unauthorized" 401)) ∧
       (UserSession.role s ∉ allowedRoles →
        withRoles allowedRoles request' w'
          = (Ok (ErrorResponse "Insufficient permissions" 403), w')) ∧
       (UserSession.role s ∈ allowedRoles → io_ok w' →
        ∃ w'', withRoles allowedRoles request' w' = (Ok Next, w'') ∧
               auditLog w'' =
                 auditLog w' ++ [AccessEntry (UserSession.userId s) (UserSession.role s)
                                             (req_url request) true]).
Proof.
  intros Hm.
  assert (Hatt : ∃ s, request' = attach_session request s ∧ now ≤ UserSession.expiresAt s).
  { revert Hm. unfold sessionMiddleware.
    destruct sessionToken as [tok|]; [|discriminate].
    case_bool_decide; [discriminate|].
    unfold try_catch at 1. unfold bind at 1.
    destruct (validate now tok w) as [[[s|]|e] w1] eqn:Hv; try discriminate.
    apply validate_returns_live_inv in Hv.
    unfold bind at 1.
    destruct (validateSession generateDeviceId now2 request (UserSession.id s) w1)
      as [[[]|e] w2]; simpl; try discriminate.
    - unfold try_catch, bind, ret.
      destruct (updateLastActive (UserSession.id s) w2) as [[[]|e] w3]; [|discriminate].
      intros [= <- <-]. by exists s.
    - unfold bind, ret.
      destruct (destroy (UserSession.id s) w2) as [[[]|e] w3]; discriminate. }
  destruct Hatt as (s & -> & Hlive). exists s. split; [done|]. split; [exact Hlive|].
  unfold withRoles, includes. simpl. repeat split.
  - intros r w''. case_bool_decide; simpl.
    + unfold auditLogger_log, await_io, issue, settle, bind, modify, ret.
      destruct w' as [c d rc rd al fs tr]. simpl.
      case_fault; intros [= <- _]; discriminate.
    + unfold ret. intros [= <- _]. discriminate.
  - intros Hnot. by rewrite bool_decide_eq_false_2.
  - intros Hin Hok. rewrite bool_decide_eq_true_2 by done. simpl.
    unfold auditLogger_log, await_io, issue, bind, modify, ret. simpl.
    rewrite settle_ok by exact Hok. simpl. by eexists.
Qed.

Lemma guard_after_middleware_witness :
  let s := sample_session "s1" "admin" ["read"] 0 1000 in
  let rq := sample_request "1.1.1.1" "agent" None in
  let out := sessionMiddleware deviceOfAgent (touchCached 500) 500 500 (Some "s1") rq
               sample_world in
  out = (Ok (Next, attach_session rq s), out.2) ∧
  ∃ s', req_session (attach_session rq s) = Some s' ∧
       500 ≤ UserSession.expiresAt s' ∧
       (∀ r w'', withRoles ["admin"] (attach_session rq s) out.2 = (r, w'') →
                 r ≠ Ok (ErrorResponse "Unauthorized" 401)) ∧
       (UserSession.role s' ∉ ["admin"] →
        withRoles ["admin"] (attach_session rq s) out.2
          = (Ok (ErrorResponse "Insufficient permissions" 403), out.2)) ∧
       (UserSession.role s' ∈ ["admin"] → io_ok out.2 →
        ∃ w'', withRoles ["admin"] (attach_session rq s) out.2 = (Ok Next, w'') ∧
               auditLog w'' =
                 auditLog out.2 ++ [AccessEntry (UserSession.userId s') (UserSession.role s')
                                                (req_url rq) true]).
Proof.
  intros s rq out.
  assert (H : out = (Ok (Next, attach_session rq s), out.2)) by (vm_compute; reflexivity).
  split; [exact H|].
  exact (guard_after_middleware deviceOfAgent (touchCached 500) 500 500 (Some "s1") rq
           sample_world (attach_session rq s) out.2 ["admin"] H).
Defined.

(** ** The cache is keyed by session id *)

(** X23. create and validate keep every cache entry filed under the id of
    its session: when that holds before a create or a validate, it holds
    after it, whatever the outcome of the call. *)
Theorem cache_keyed_preserved w :
  cache_keyed w →
  (∀ uuid tok created now active request userId role perms,
      cache_keyed (create uuid tok created now active request userId role perms w).2) ∧
  (∀ now sessionId, cache_keyed (validate now sessionId w).2).
Proof.
  intros Hkeyed.
  assert (Hdel : ∀ k, ∀ key s, delete k (cache w) !! key = Some s → UserSession.id s = key).
  { intros k key s. destruct (decide (k = key)) as [->|Hne].
    - by rewrite lookup_delete_eq.
    - rewrite lookup_delete_ne by done. apply Hkeyed. }
  assert (Hins : ∀ k x, UserSession.id x = k →
             ∀ key s, <[k := x]> (cache w) !! key = Some s → UserSession.id s = key).
  { intros k x Hx key s. destruct (decide (k = key)) as [->|Hne].
    - rewrite lookup_insert_eq. by intros [= <-].
    - rewrite lookup_insert_ne by done. apply Hkeyed. }
  assert (Hinsdel : ∀ k x, UserSession.id x = k →
             ∀ key s, delete k (<[k := x]> (cache w)) !! key = Some s →
                      UserSession.id s = key).
  { intros k x Hx key s. rewrite delete_insert_eq. apply Hdel. }
  unfold cache_keyed in *. split.
  - intros uuid tok created now active request userId role perms.
    unfold_store. destruct w as [c d rc rd al fs tr]. simpl in *.
    case_fault; by apply Hins.
  - intros now sessionId.
    unfold_store. destruct w as [c d rc rd al fs tr]. simpl in *.
    destruct (c !! sessionId) as [s0|] eqn:Hc; simpl.
    + case_bool_decide; simpl; [case_fault; apply Hdel | apply Hkeyed].
    + case_fault; try apply Hkeyed;
        (destruct (find_doc sessionId d) as [s0|] eqn:Hd; simpl;
         [ assert (Hid : UserSession.id s0 = sessionId)
             by (apply find_some in Hd as [_ Hd]; unfold has_id in Hd;
                 by apply bool_decide_eq_true in Hd);
           case_bool_decide; simpl;
           [ try case_fault; by apply Hinsdel | by apply Hins ]
         | try case_fault; apply Hdel ]).
Qed.

Lemma cache_keyed_preserved_witness :
  cache_keyed sample_world ∧
  (∀ uuid tok created now active request userId role perms,
      cache_keyed
        (create uuid tok created now active request userId role perms sample_world).2) ∧
  (∀ now sessionId, cache_keyed (validate now sessionId sample_world).2).
Proof.
  assert (H : cache_keyed sample_world).
  { intros key s. unfold sample_world, world_of. simpl.
    destruct (decide ("s1" = key)) as [<-|Hne].
    - rewrite lookup_insert_eq. by intros [= <-].
    - rewrite lookup_insert_ne by done. by rewrite lookup_empty. }
  split; [exact H|].
  exact (cache_keyed_preserved sample_world H).
Defined.
